(** * Forensic economic loss calculator: the calculation pipeline of main.py

    A shallow embedding of the numeric core of [run_case] and of the stage
    functions it composes, followed by the properties of the pipeline.

    Number model.  Python floats are idealised as exact rationals ([Qc],
    rationals in lowest terms, so that equality is Leibniz equality).  What
    Python raises is kept: [ZeroDivisionError] on a zero divisor,
    [IndexError] on a position outside a sequence, [FileNotFoundError] when
    the life table workbook is missing, [ValueError] from validation,
    [KeyError] on a missing dictionary key.
    Rounding, overflow and underflow of IEEE doubles are outside the model:
    a power that leaves the range of a double raises [OverflowError] in
    Python, or rounds to 0.0, and is an exact rational here. *)

From Stdlib Require Import ZArith QArith Qcanon Qround List Lia Lqa String Bool.
Import ListNotations.


(** ** Exceptions and the error monad *)

Inductive exn : Type :=
| ValueError (msg : string)
| FileNotFoundError (msg : string)
| IndexError
| ZeroDivisionError
| KeyError (key : string).

Definition result (A : Type) : Type := (exn + A)%type.

Definition ret {A : Type} (a : A) : result A := inr a.
Definition raise {A : Type} (e : exn) : result A := inl e.

Definition bind {A B : Type} (m : result A) (k : A -> result B) : result B :=
  match m with
  | inl e => inl e
  | inr a => k a
  end.

Notation "x <- m ;; k" := (bind m (fun x => k))
  (at level 61, m at next level, right associativity).
Notation "' pat <- m ;; k" := (bind m (fun x => match x with pat => k end))
  (at level 61, pat pattern, m at next level, right associativity).

(** ** Python arithmetic on the idealised floats *)

Open Scope Qc_scope.

Module Py.

(** A Python [float], idealised as an exact rational. *)
Abbreviation float := Qc (only parsing).

Definition of_int (z : Z) : float := Q2Qc (inject_Z z).

(** [x < y] as a boolean. *)
Definition ltb (x y : float) : bool :=
  match x ?= y with Lt => true | _ => false end.

(** Truthiness of a float: [if x] holds unless [x == 0.0]. *)
Definition truthy (x : float) : bool :=
  match x ?= 0 with Eq => false | _ => true end.

(** [max(a, b)]: the first argument unless the second is strictly larger. *)
Definition max (a b : float) : float := if ltb a b then b else a.

(** [int(math.floor(x))]. *)
Definition floor (x : float) : Z := Qfloor (this x).

(** [math.ceil(x)], used only in statements. *)
Definition ceil (x : float) : Z := Qceiling (this x).

(** [x / y] on floats. *)
Definition div (x y : float) : result float :=
  if truthy y then ret (x / y) else raise ZeroDivisionError.

(** [x ** t] for an [int] exponent [t >= 0]; [0.0 ** 0] is [1.0]. *)
Definition pow (x : float) (t : nat) : float := x ^ t.

(** [sum(xs)], accumulating from 0 left to right. *)
Definition sum (xs : list float) : float :=
  fold_left Qcplus xs 0.

(** [[x] * n] for an [int] [n]: empty when [n <= 0]. *)
Definition replicate (x : float) (n : Z) : list float :=
  repeat x (Z.to_nat n).

(** [list(range(n))]. *)
Definition range (n : nat) : list nat := seq 0 n.

End Py.

(** [1e-6], [78.4], [365.25] and the two default rates, as the literals of
    the source denote them in decimal. *)
Definition epsilon : Py.float := Q2Qc (1 # 1000000).
Definition birth_expectation : Py.float := Q2Qc (784 # 10).
Definition days_per_year : Py.float := Q2Qc (36525 # 100).
Definition default_growth_rate : Py.float := Q2Qc (28 # 1000).
Definition default_discount_rate : Py.float := Q2Qc (37 # 1000).

(** ** The reference life table *)

(** One row of the frame [_load_life_table] returns: columns [age_int], [ex]. *)
Record LifeTableEntry : Type := mkEntry {
  age_int : Z;
  ex : Py.float
}.

Definition LifeTable : Type := list LifeTableEntry.

(** What the process finds on disk next to the module: [Table01.xlsx] absent
    ([None]), or present with the rows that survive the reading and cleaning
    of the workbook. *)
Record Env : Type := mkEnv {
  table_file : option LifeTable
}.

Definition _load_life_table (env : Env) : result LifeTable :=
  match table_file env with
  | None =>
      raise (FileNotFoundError
        "Life table file not found. Please ensure Table01.xlsx is in the same directory.")
  | Some df => ret df
  end.

(** [table[table["age_int"] == a]]: the rows of age [a], in table order. *)
Definition rows_at (table : LifeTable) (a : Z) : LifeTable :=
  filter (fun r => Z.eqb (age_int r) a) table.

(** ** Life expectancy and work-life expectancy *)

(** [_compute_life_expectancy(age, sex, override_years)].  The lookup
    [ex_row["ex"].values[0]] takes the first row of the selected age. *)
Definition _compute_life_expectancy (env : Env) (age : Py.float) (sex : string)
    (override_years : option Py.float) : result (Py.float * list Py.float) :=
  life_expectancy <-
    match override_years with
    | Some v => ret v
    | None =>
        table <- _load_life_table env ;;
        let age_floor := Py.floor age in
        match rows_at table age_floor with
        | [] => ret (Py.max 0 (birth_expectation - age))
        | ex_row :: _ =>
            let life_expectancy := ex ex_row in
            let frac := age - Py.of_int age_floor in
            match rows_at table (age_floor + 1) with
            | [] => ret life_expectancy
            | next_row :: _ =>
                let next_ex := ex next_row in
                ret (life_expectancy - frac * (life_expectancy - next_ex))
            end
        end
    end ;;
  let whole_years := Py.floor life_expectancy in
  let fractional := life_expectancy - Py.of_int whole_years in
  let fractions := Py.replicate 1 whole_years in
  let fractions :=
    if Py.ltb epsilon fractional then fractions ++ [fractional] else fractions in
  ret (life_expectancy, fractions).

(** [_compute_worklife_expectancy(age, retirement_age_hint, active_status,
    education_level, override)]. *)
Definition _compute_worklife_expectancy (age retirement_age_hint : Py.float)
    (active_status education_level : string) (override : option Py.float)
    : Py.float * list Py.float :=
  let wle :=
    match override with
    | Some v => v
    | None => Py.max 0 (retirement_age_hint - age)
    end in
  let whole_years := Py.floor wle in
  let fractional := wle - Py.of_int whole_years in
  let portions := Py.replicate 1 whole_years in
  let portions :=
    if Py.ltb epsilon fractional then portions ++ [fractional] else portions in
  (wle, portions).

(** ** Wage history, projection, discounting, present value *)

(** The frame of [_compute_wage_growth_series]: the first row has no growth. *)
Record WageFrame : Type := mkWageFrame {
  wage_YearIndex : list nat;
  MeanWage : list Py.float;
  YoYGrowth : list (option Py.float)
}.

(** First loop: [wages.insert(0, current_salary)] then
    [current_salary /= (1 + growth_rate)], [years] times. *)
Fixpoint wages_back (growth_rate : Py.float) (years : nat)
    (wages : list Py.float) (current_salary : Py.float)
    : result (list Py.float) :=
  match years with
  | O => ret wages
  | S k =>
      let wages := current_salary :: wages in
      current_salary <- Py.div current_salary (1 + growth_rate) ;;
      wages_back growth_rate k wages current_salary
  end.

(** Second loop: for consecutive [prev], [cur] the rate
    [(cur - prev) / prev if prev else 0.0]. *)
Fixpoint yoy_of (wages : list Py.float) : list Py.float :=
  match wages with
  | prev :: ((cur :: _) as rest) =>
      (if Py.truthy prev then (cur - prev) / prev else 0) :: yoy_of rest
  | _ => []
  end.

Definition _compute_wage_growth_series (base_salary growth_rate : Py.float)
    (years : nat) : result (WageFrame * Py.float) :=
  wages <- wages_back growth_rate years [] base_salary ;;
  let yoy_rates := yoy_of wages in
  let avg_growth :=
    match yoy_rates with
    | [] => 0
    | _ => Py.sum yoy_rates / Py.of_int (Z.of_nat (List.length yoy_rates))
    end in
  let years_list := Py.range (List.length wages) in
  let growth_column := None :: map Some yoy_rates in
  (* for an empty window the frame takes the one row of the growth column,
     with no number in the two other columns of that row *)
  ret (mkWageFrame years_list wages growth_column, avg_growth).

(** The frame of [_compute_projections]. *)
Record ProjectionFrame : Type := mkProjectionFrame {
  proj_YearIndex : list nat;
  FullYearValue : list Py.float;
  PortionOfYear : list Py.float;
  ActualValue : list Py.float
}.

(** The loop of [_compute_projections] from index [i] on: the running value
    is multiplied by [(1 + growth_rate) if i > 0 else 1.0] before it is used. *)
Fixpoint project_from (growth_rate : Py.float) (i : nat) (current : Py.float)
    (portions : list Py.float) : list Py.float * list Py.float :=
  match portions with
  | [] => ([], [])
  | portion :: rest =>
      let current := current * (if Nat.ltb 0 i then 1 + growth_rate else 1) in
      let '(full_year_values, actual_values) :=
        project_from growth_rate (S i) current rest in
      (current :: full_year_values, current * portion :: actual_values)
  end.

Definition _compute_projections (base_salary growth_rate : Py.float)
    (portions : list Py.float) : ProjectionFrame * list Py.float :=
  let '(full_year_values, actual_values) :=
    project_from growth_rate 0 base_salary portions in
  (mkProjectionFrame (Py.range (List.length portions)) full_year_values portions
     actual_values,
   full_year_values).

(** The frame of [_compute_discount_factors]. *)
Record DiscountFrame : Type := mkDiscountFrame {
  disc_YearIndex : list nat;
  DiscountFactor : list Py.float
}.

(** The comprehension [[1.0 / ((1 + discount_rate) ** t) for t in ts]]. *)
Fixpoint factors_of (discount_rate : Py.float) (ts : list nat)
    : result (list Py.float) :=
  match ts with
  | [] => ret []
  | t :: rest =>
      f <- Py.div 1 (Py.pow (1 + discount_rate) t) ;;
      fs <- factors_of discount_rate rest ;;
      ret (f :: fs)
  end.

Definition _compute_discount_factors (discount_rate : Py.float) (n : nat)
    : result DiscountFrame :=
  factors <- factors_of discount_rate (Py.range n) ;;
  ret (mkDiscountFrame (Py.range n) factors).

(** The frame of [_compute_present_values]. *)
Record PresentValueFrame : Type := mkPresentValueFrame {
  pv_YearIndex : list nat;
  PresentValue : list Py.float;
  CumulativePV : list Py.float
}.

(** [xs[i]] for [i >= 0]. *)
Definition getitem (xs : list Py.float) (i : nat) : result Py.float :=
  match nth_error xs i with
  | Some x => ret x
  | None => raise IndexError
  end.

(** The loop of [_compute_present_values] from index [i] on, with the
    running total [cum]; [todo] is what is left of [actual_values]. *)
Fixpoint pv_from (discount_factors : list Py.float) (i : nat) (cum : Py.float)
    (todo : list Py.float) : result (list Py.float * list Py.float) :=
  match todo with
  | [] => ret ([], [])
  | actual :: rest =>
      factor <- getitem discount_factors i ;;
      let present := actual * factor in
      let cum := cum + present in
      '(pv, cumulative) <- pv_from discount_factors (S i) cum rest ;;
      ret (present :: pv, cum :: cumulative)
  end.

Definition _compute_present_values (actual_values discount_factors : list Py.float)
    : result PresentValueFrame :=
  '(pv, cumulative) <- pv_from discount_factors 0 0 actual_values ;;
  ret (mkPresentValueFrame (Py.range (List.length actual_values)) pv cumulative).

(** ** Case configuration *)

(** A calendar date as [datetime.strptime(s, "%Y-%m-%d")] reads it from the
    configuration: the three numeric fields of the string. *)
Record date : Type := mkDate {
  year : Z;
  month : Z;
  day : Z
}.

(** Keys of the configuration dictionaries that may be missing are options. *)
Record Person : Type := mkPerson {
  first_name : option string;
  last_name : option string;
  sex : option string;
  dob : option date;
  dod : option date;
  education_level : option string;
  active_status : option string
}.

Record Occupation : Type := mkOccupation {
  soc_code : option string;
  title : option string;
  county : option string;
  state : option string;
  base_salary_usd : option Py.float
}.

Record Assumptions : Type := mkAssumptions {
  retirement_age_hint : option Py.float;
  life_expectancy_override_years : option Py.float;
  worklife_table_override : option Py.float;
  discount_rate_override : option Py.float;
  annual_growth_rate_override : option Py.float
}.

Record Config : Type := mkConfig {
  case_id : string;
  person : Person;
  occupation : Occupation;
  assumptions : option Assumptions
}.

(** [config.get("assumptions", {}).get(key)]. *)
Definition assumption (config : Config) (key : Assumptions -> option Py.float)
    : option Py.float :=
  match assumptions config with
  | Some a => key a
  | None => None
  end.

(** [d.get(key, default)]. *)
Definition get_default {A : Type} (field : option A) (default : A) : A :=
  match field with
  | Some v => v
  | None => default
  end.

(** ** Dates: the day count of Python's [datetime] (proleptic Gregorian) *)

Module Calendar.

Definition is_leap (y : Z) : bool :=
  ((y mod 4 =? 0) && (negb (y mod 100 =? 0) || (y mod 400 =? 0)))%Z.

Definition days_in_month (y m : Z) : Z :=
  if (m =? 2)%Z then (if is_leap y then 29 else 28)%Z
  else if ((m =? 4) || (m =? 6) || (m =? 9) || (m =? 11))%Z then 30%Z
  else 31%Z.

Definition days_before_year (y : Z) : Z :=
  let y1 := (y - 1)%Z in
  (y1 * 365 + y1 / 4 - y1 / 100 + y1 / 400)%Z.

Definition days_before_month (y m : Z) : Z :=
  (nth (Z.to_nat m) [-1; 0; 31; 59; 90; 120; 151; 181; 212; 243; 273; 304; 334] 0
   + (if (2 <? m)%Z && is_leap y then 1 else 0))%Z.

Definition toordinal (d : date) : Z :=
  (days_before_year (year d) + days_before_month (year d) (month d) + day d)%Z.

(** A date is built only from a year in 1..9999, a month in 1..12 and a
    day of that month; anything else is a [ValueError], whose text here
    stands for Python's, which names the fault. *)
Definition strptime (d : date) : result date :=
  if ((1 <=? year d) && (year d <=? 9999)
      && (1 <=? month d) && (month d <=? 12)
      && (1 <=? day d) && (day d <=? days_in_month (year d) (month d)))%Z
  then ret d
  else raise (ValueError "time data does not match format").

(** [(b - a).days]. *)
Definition days_between (a b : date) : Z := (toordinal b - toordinal a)%Z.

End Calendar.

(** ** The orchestrator *)

Record Summary : Type := mkSummary {
  life_expectancy_years : Py.float;
  worklife_remaining_years : Py.float;
  avg_wage_growth_pct : Py.float;
  discount_rate_pct : Py.float;
  total_economic_loss_usd : Py.float
}.

(** What [run_case] computes: the summary it returns and the tables it hands
    to the workbook and memo writers.  The files written, their paths and
    the fixed citation strings hold no calculation and are not modelled. *)
Record CaseResult : Type := mkCaseResult {
  res_case_id : string;
  summary : Summary;
  life_timeline : list Py.float;
  worklife_timeline : list Py.float;
  wage_df : WageFrame;
  avg_growth_rate : Py.float;
  projections_df : ProjectionFrame;
  discount_df : DiscountFrame;
  pv_df : PresentValueFrame
}.

(** [if field not in d: raise ValueError(...)]. *)
Definition require {A : Type} (msg : string) (field : option A) : result A :=
  match field with
  | Some v => ret v
  | None => raise (ValueError msg)
  end.

(** [series.iloc[-1]]: out of bounds on an empty series. *)
Definition iloc_last (xs : list Py.float) : result Py.float :=
  match xs with
  | [] => raise IndexError
  | x :: rest => ret (last rest x)
  end.

(** What [_create_pdf_memo] needs of its inputs beyond the validated keys:
    the methodology paragraph reads
    [inputs['assumptions']['retirement_age_hint']], a [KeyError] when the
    block or the key is missing.  The pages themselves are not modelled;
    [_create_excel_report], called before it, reads validated keys only. *)
Definition _create_pdf_memo (summary : Summary) (inputs : Config) : result unit :=
  match assumptions inputs with
  | None => raise (KeyError "assumptions")
  | Some a =>
      match retirement_age_hint a with
      | None => raise (KeyError "retirement_age_hint")
      | Some _ => ret tt
      end
  end.

Definition run_case (env : Env) (config : Config) : result CaseResult :=
  (* Validate required fields *)
  _ <- require "Missing required person field: first_name" (first_name (person config)) ;;
  _ <- require "Missing required person field: last_name" (last_name (person config)) ;;
  sex_ <- require "Missing required person field: sex" (sex (person config)) ;;
  dob_ <- require "Missing required person field: dob" (dob (person config)) ;;
  dod_ <- require "Missing required person field: dod" (dod (person config)) ;;
  _ <- require "Missing required occupation field: soc_code" (soc_code (occupation config)) ;;
  _ <- require "Missing required occupation field: title" (title (occupation config)) ;;
  _ <- require "Missing required occupation field: county" (county (occupation config)) ;;
  _ <- require "Missing required occupation field: state" (state (occupation config)) ;;
  base_salary <- require "Missing required occupation field: base_salary_usd"
                   (base_salary_usd (occupation config)) ;;
  (* Parse dates and compute age *)
  dob_ <- Calendar.strptime dob_ ;;
  dod_ <- Calendar.strptime dod_ ;;
  let age_days := Calendar.days_between dob_ dod_ in
  let age_years := Py.of_int age_days / days_per_year in
  (* Life expectancy *)
  let le_override := assumption config life_expectancy_override_years in
  '(life_expectancy, life_fractions) <-
    _compute_life_expectancy env age_years sex_ le_override ;;
  (* Worklife expectancy *)
  let wle_override := assumption config worklife_table_override in
  let '(wle, worklife_portions) :=
    _compute_worklife_expectancy age_years
      (get_default (assumption config retirement_age_hint) (Py.of_int 65))
      (get_default (active_status (person config)) "active"%string)
      (get_default (education_level (person config)) "Other"%string)
      wle_override in
  (* Wage data and growth rate *)
  let wage_growth_override := assumption config annual_growth_rate_override in
  let growth_rate := get_default wage_growth_override default_growth_rate in
  '(wage_df, avg_growth) <- _compute_wage_growth_series base_salary growth_rate 7 ;;
  (* Earnings projections (future) *)
  let '(projections_df, full_year_values) :=
    _compute_projections base_salary growth_rate worklife_portions in
  (* Discount factors *)
  let discount_override := assumption config discount_rate_override in
  let discount_rate := get_default discount_override default_discount_rate in
  discount_df <-
    _compute_discount_factors discount_rate (List.length (proj_YearIndex projections_df)) ;;
  (* Present values *)
  pv_df <-
    _compute_present_values (ActualValue projections_df) (DiscountFactor discount_df) ;;
  total_loss <- iloc_last (CumulativePV pv_df) ;;
  let summary :=
    mkSummary life_expectancy wle (avg_growth * Py.of_int 100)
      (discount_rate * Py.of_int 100) total_loss in
  (* Write Excel workbook, PDF memo, summary JSON *)
  _ <- _create_pdf_memo summary config ;;
  ret (mkCaseResult (case_id config) summary life_fractions worklife_portions
         wage_df avg_growth projections_df discount_df pv_df).

(** ** Notions used in the statements *)

(** The fractional part of a number of years. *)
Definition frac_part (years : Py.float) : Py.float :=
  years - Py.of_int (Py.floor years).

(** [produced years fr]: one of the two estimators returns the remaining
    years [years] with the timeline [fr]. *)
Inductive produced (years : Py.float) (fr : list Py.float) : Prop :=
| produced_life env age sex ov :
    _compute_life_expectancy env age sex ov = inr (years, fr) -> produced years fr
| produced_worklife age hint act edu ov :
    _compute_worklife_expectancy age hint act edu ov = (years, fr) -> produced years fr.

(** A per-year occupancy value: [0 < f <= 1]. *)
Definition unit_fraction (f : Py.float) : Prop := 0 < f /\ f <= 1.

(** The shape of a timeline for [years] remaining years: whole years of 1.0,
    then the fractional part exactly when it exceeds [1e-6]; entries in
    (0, 1]; as long as [ceil(years)] unless a positive fractional part of at
    most [1e-6] was dropped. *)
Definition timeline_ok (years : Py.float) (fr : list Py.float) : Prop :=
  let n := Z.to_nat (Py.floor years) in
  let f := frac_part years in
  (epsilon < f -> fr = repeat 1 n ++ [f]) /\
  (f <= epsilon -> fr = repeat 1 n) /\
  Forall unit_fraction fr /\
  (0 <= years -> f = 0 \/ epsilon < f ->
   Z.of_nat (List.length fr) = Py.ceil years).

(** [ex(a)]: the table value at integer age [a], when a row of that age exists. *)
Definition ex_at (table : LifeTable) (a : Z) : option Py.float :=
  option_map ex (find (fun r => Z.eqb (age_int r) a) table).

(** A wage list in which every value is non-zero and each value is the one
    before it compounded by [1 + g]. *)
Inductive compounding (g : Py.float) : list Py.float -> Prop :=
| compounding_nil : compounding g []
| compounding_one x : x <> 0 -> compounding g [x]
| compounding_cons x y l :
    x <> 0 -> y = x * (1 + g) -> compounding g (y :: l) ->
    compounding g (x :: y :: l).

(** Age at death in years: days between the two dates over 365.25. *)
Definition age_at_death (birth death : date) : Py.float :=
  Py.of_int (Calendar.days_between birth death) / days_per_year.

(** The retirement-age hint a run uses: the configured one, or 65. *)
Definition hint_of (config : Config) : Py.float :=
  get_default (assumption config retirement_age_hint) (Py.of_int 65).

(** Two configurations that agree on everything but the person's sex,
    education level and activity status, both naming a sex. *)
Definition same_but_demographics (c1 c2 : Config) : Prop :=
  case_id c1 = case_id c2 /\
  first_name (person c1) = first_name (person c2) /\
  last_name (person c1) = last_name (person c2) /\
  dob (person c1) = dob (person c2) /\
  dod (person c1) = dod (person c2) /\
  occupation c1 = occupation c2 /\
  assumptions c1 = assumptions c2 /\
  sex (person c1) <> None /\
  sex (person c2) <> None.


(** ** Sample cases *)

Definition john_doe (birth death : date) : Person :=
  mkPerson (Some "John"%string) (Some "Doe"%string) (Some "male"%string)
    (Some birth) (Some death) (Some "BA"%string) (Some "active"%string).

Definition sales_manager (salary : Py.float) : Occupation :=
  mkOccupation (Some "11-2022"%string) (Some "Sales Manager"%string)
    (Some "Riverside"%string) (Some "CA"%string) (Some salary).

(** Born 1980-01-01, died 2025-01-01, salary 86900, retirement hint 65,
    life expectancy overridden to 30 years. *)
Definition case_001 : Config :=
  mkConfig "case_001" (john_doe (mkDate 1980 1 1) (mkDate 2025 1 1))
    (sales_manager (Py.of_int 86900))
    (Some (mkAssumptions (Some (Py.of_int 65)) (Some (Py.of_int 30))
             None None None)).

(** The same person with every override set: 30 years of life, 2.5 years of
    work, a 5% discount rate and a 4% growth rate. *)
Definition case_overridden : Config :=
  mkConfig "case_002" (john_doe (mkDate 1980 1 1) (mkDate 2025 1 1))
    (sales_manager (Py.of_int 86900))
    (Some (mkAssumptions (Some (Py.of_int 65)) (Some (Py.of_int 30))
             (Some (Q2Qc (5 # 2))) (Some (Q2Qc (5 # 100)))
             (Some (Q2Qc (4 # 100))))).


(** A decedent older than the retirement hint: born 1950-01-01, died
    2025-01-01 (about 75 years), hint 65, life expectancy overridden to 12. *)
Definition case_past_retirement : Config :=
  mkConfig "case_004" (john_doe (mkDate 1950 1 1) (mkDate 2025 1 1))
    (sales_manager (Py.of_int 86900))
    (Some (mkAssumptions (Some (Py.of_int 65)) (Some (Py.of_int 12))
             None None None)).

(** [case_001] without the life-expectancy override. *)
Definition case_no_override : Config :=
  mkConfig "case_005" (john_doe (mkDate 1980 1 1) (mkDate 2025 1 1))
    (sales_manager (Py.of_int 86900))
    (Some (mkAssumptions (Some (Py.of_int 65)) None None None None)).

(** [case_001] for a woman with a doctorate, inactive. *)
Definition case_001_other_demographics : Config :=
  mkConfig "case_001"
    (mkPerson (Some "John"%string) (Some "Doe"%string) (Some "female"%string)
       (Some (mkDate 1980 1 1)) (Some (mkDate 2025 1 1)) (Some "PhD"%string)
       (Some "inactive"%string))
    (sales_manager (Py.of_int 86900))
    (Some (mkAssumptions (Some (Py.of_int 65)) (Some (Py.of_int 30))
             None None None)).

(** A two-row excerpt of a life table, and the disk states used below. *)
Definition table_excerpt : LifeTable :=
  [mkEntry 45 (Q2Qc (352 # 10)); mkEntry 46 (Q2Qc (343 # 10))].

Definition env_with_table : Env := mkEnv (Some table_excerpt).
Definition env_without_table : Env := mkEnv None.

(** ** The web form of app.py *)

(** The values the form of [main] collects.  Dates are the [date] objects
    of the two date pickers, numbers the values of the number inputs. *)
Record Form : Type := mkForm {
  in_case_id : string;
  in_first_name : string;
  in_last_name : string;
  in_sex : string;
  in_dob : date;
  in_dod : date;
  in_education_level : string;
  in_active_status : string;
  in_soc_code : string;
  in_title : string;
  in_county : string;
  in_state : string;
  in_base_salary_usd : Py.float;
  in_retirement_age_hint : Py.float;
  in_life_expectancy_override : Py.float;
  in_worklife_override : Py.float;
  in_discount_rate_override : Py.float;
  in_growth_rate_override : Py.float
}.

(** The configuration dictionary [cfg] that [main] builds on submit: an
    override is passed only when the number typed is positive, the two rates
    as fractions of the percentages typed. *)
Definition cfg (f : Form) : Config :=
  mkConfig (in_case_id f)
    (mkPerson (Some (in_first_name f)) (Some (in_last_name f))
       (Some (in_sex f)) (Some (in_dob f)) (Some (in_dod f))
       (Some (in_education_level f)) (Some (in_active_status f)))
    (mkOccupation (Some (in_soc_code f)) (Some (in_title f))
       (Some (in_county f)) (Some (in_state f))
       (Some (in_base_salary_usd f)))
    (Some (mkAssumptions
       (Some (in_retirement_age_hint f))
       (if Py.ltb 0 (in_life_expectancy_override f)
        then Some (in_life_expectancy_override f) else None)
       (if Py.ltb 0 (in_worklife_override f)
        then Some (in_worklife_override f) else None)
       (if Py.ltb 0 (in_discount_rate_override f)
        then Some (in_discount_rate_override f / Py.of_int 100) else None)
       (if Py.ltb 0 (in_growth_rate_override f)
        then Some (in_growth_rate_override f / Py.of_int 100) else None))).

(** ** Further notions used in the statements *)

(** [[msg]] when the key is missing, nothing otherwise. *)
Definition absent {A : Type} (msg : string) (field : option A) : list string :=
  match field with
  | Some _ => []
  | None => [msg]
  end.

(** The complaints about missing required keys, person first, in the order
    of the two lists of required fields. *)
Definition missing_required (c : Config) : list string :=
  absent "Missing required person field: first_name" (first_name (person c))
  ++ absent "Missing required person field: last_name" (last_name (person c))
  ++ absent "Missing required person field: sex" (sex (person c))
  ++ absent "Missing required person field: dob" (dob (person c))
  ++ absent "Missing required person field: dod" (dod (person c))
  ++ absent "Missing required occupation field: soc_code"
       (soc_code (occupation c))
  ++ absent "Missing required occupation field: title" (title (occupation c))
  ++ absent "Missing required occupation field: county"
       (county (occupation c))
  ++ absent "Missing required occupation field: state" (state (occupation c))
  ++ absent "Missing required occupation field: base_salary_usd"
       (base_salary_usd (occupation c)).

(** The growth and discount rates a run uses: the override, or the default. *)
Definition growth_of (c : Config) : Py.float :=
  get_default (assumption c annual_growth_rate_override) default_growth_rate.

Definition discount_of (c : Config) : Py.float :=
  get_default (assumption c discount_rate_override) default_discount_rate.

(** The work-life timeline of a run for a person born [b] and dead [d]. *)
Definition portions_of (c : Config) (b d : date) : list Py.float :=
  snd (_compute_worklife_expectancy (age_at_death b d) (hint_of c)
         (get_default (active_status (person c)) "active"%string)
         (get_default (education_level (person c)) "Other"%string)
         (assumption c worklife_table_override)).

(** What a run that returns needs: every required key present, both
    dates valid, a life-expectancy override or a table on disk, a growth
    rate other than -1, at least one projected year, a discount rate other
    than -1 unless a single year is projected, and a retirement-age hint in
    the assumptions for the memo. *)
Definition runnable (env : Env) (c : Config) : Prop :=
  missing_required c = [] /\
  assumption c retirement_age_hint <> None /\
  exists b d,
    dob (person c) = Some b /\ dod (person c) = Some d /\
    Calendar.strptime b = inr b /\ Calendar.strptime d = inr d /\
    (assumption c life_expectancy_override_years <> None
     \/ table_file env <> None) /\
    1 + growth_of c <> 0 /\
    portions_of c b d <> [] /\
    (1 + discount_of c <> 0 \/ List.length (portions_of c b d) = 1%nat).

(** The complaint of validation about a missing key [name]. *)
Definition missing_key_error (e : exn) : Prop :=
  exists name,
    e = ValueError ("Missing required person field: " ++ name)
    \/ e = ValueError ("Missing required occupation field: " ++ name).

(** The present value of year [t] in closed form: the base salary
    compounded [t] times, times the share of the year worked, discounted
    [t] times. *)
Definition discounted_year (base g d : Py.float) (portions : list Py.float)
    (t : nat) : Py.float :=
  base * (1 + g) ^ t * nth t portions 0 * (1 / (1 + d) ^ t).

(** Two configurations that agree on everything but the names of the
    person and the code, title and place of the occupation, all present. *)
Definition same_but_labels (c1 c2 : Config) : Prop :=
  case_id c1 = case_id c2 /\
  sex (person c1) = sex (person c2) /\
  dob (person c1) = dob (person c2) /\
  dod (person c1) = dod (person c2) /\
  education_level (person c1) = education_level (person c2) /\
  active_status (person c1) = active_status (person c2) /\
  base_salary_usd (occupation c1) = base_salary_usd (occupation c2) /\
  assumptions c1 = assumptions c2 /\
  missing_required c1 = [] /\ missing_required c2 = [].

(** ** Further sample cases *)

(** The form as it opens, nothing typed: John Doe, born 1980-01-01, dead
    2025-01-01, salary 86900, hint 65, every override at 0. *)
Definition form_defaults : Form :=
  mkForm "case_001" "John" "Doe" "male" (mkDate 1980 1 1) (mkDate 2025 1 1)
    "BA" "active" "11-2022" "Sales Manager" "Riverside" "CA"
    (Py.of_int 86900) (Py.of_int 65) 0 0 0 0.

(** The form with every override typed: 30 years of life, 2.5 years of
    work, 5 percent discount, 4 percent growth. *)
Definition form_overridden : Form :=
  mkForm "case_002" "John" "Doe" "male" (mkDate 1980 1 1) (mkDate 2025 1 1)
    "BA" "active" "11-2022" "Sales Manager" "Riverside" "CA"
    (Py.of_int 86900) (Py.of_int 65) (Py.of_int 30) (Q2Qc (5 # 2))
    (Py.of_int 5) (Py.of_int 4).

(** The default form for a person born 1950-01-01, with a life-expectancy
    override of 12 years. *)
Definition form_past_retirement : Form :=
  mkForm "case_004" "John" "Doe" "male" (mkDate 1950 1 1) (mkDate 2025 1 1)
    "BA" "active" "11-2022" "Sales Manager" "Riverside" "CA"
    (Py.of_int 86900) (Py.of_int 65) (Py.of_int 12) 0 0 0.

(** [case_001] with the sex and the county missing. *)
Definition case_missing_sex : Config :=
  mkConfig "case_007"
    (mkPerson (Some "John"%string) (Some "Doe"%string) None
       (Some (mkDate 1980 1 1)) (Some (mkDate 2025 1 1)) None None)
    (mkOccupation (Some "11-2022"%string) (Some "Sales Manager"%string)
       None (Some "CA"%string) (Some (Py.of_int 86900)))
    None.

(** [case_overridden] under other names and another occupation label. *)
Definition case_overridden_relabelled : Config :=
  mkConfig "case_002"
    (mkPerson (Some "Jane"%string) (Some "Roe"%string) (Some "male"%string)
       (Some (mkDate 1980 1 1)) (Some (mkDate 2025 1 1)) (Some "BA"%string)
       (Some "active"%string))
    (mkOccupation (Some "13-2011"%string) (Some "Accountant"%string)
       (Some "Orange"%string) (Some "CA"%string) (Some (Py.of_int 86900)))
    (Some (mkAssumptions (Some (Py.of_int 65)) (Some (Py.of_int 30))
             (Some (Q2Qc (5 # 2))) (Some (Q2Qc (5 # 100)))
             (Some (Q2Qc (4 # 100))))).

(** * Properties *)

(** ** Comparisons and arithmetic on the idealised floats *)

Section FloatFacts.

Implicit Types x y : Qc.

Lemma ltb_lt x y : Py.ltb x y = true <-> x < y.
Proof.
  unfold Py.ltb. rewrite Qclt_alt. destruct (x ?= y); split; congruence.
Qed.

Lemma ltb_ge x y : Py.ltb x y = false <-> y <= x.
Proof.
  split; intros H.
  - apply Qcnot_lt_le. intros L. apply ltb_lt in L. congruence.
  - destruct (Py.ltb x y) eqn:E; trivial.
    apply ltb_lt in E. exfalso. exact (Qcle_not_lt _ _ H E).
Qed.

Lemma truthy_iff x : Py.truthy x = true <-> x <> 0.
Proof.
  unfold Py.truthy. rewrite Qceq_alt. destruct (x ?= 0); split; congruence.
Qed.

Lemma this_plus x y : (this (x + y) == this x + this y)%Q.
Proof. unfold Qcplus, Q2Qc, this. apply Qred_correct. Qed.

Lemma this_minus x y : (this (x - y) == this x - this y)%Q.
Proof.
  unfold Qcminus. rewrite this_plus. unfold Qcopp, Q2Qc, this at 2.
  rewrite Qred_correct. reflexivity.
Qed.

Lemma this_mult x y : (this (x * y) == this x * this y)%Q.
Proof. unfold Qcmult, Q2Qc, this. apply Qred_correct. Qed.

Lemma this_inv x : (this (/ x) == / this x)%Q.
Proof. unfold Qcinv, Q2Qc, this at 1. apply Qred_correct. Qed.

Lemma this_of_int z : (this (Py.of_int z) == inject_Z z)%Q.
Proof. unfold Py.of_int, Q2Qc, this. apply Qred_correct. Qed.

End FloatFacts.

(** Moves an order statement on [Qc] to the underlying [Q]. *)
Ltac to_Q :=
  unfold Qcle, Qclt in *;
  rewrite ?this_plus, ?this_minus, ?this_mult, ?this_of_int in *;
  change (this 0) with 0%Q in *; change (this 1) with 1%Q in *.

Section FloatOrder.

Implicit Types x y r : Qc.

Lemma mult_nonneg x y : 0 <= x -> 0 <= y -> 0 <= x * y.
Proof. to_Q. apply Qmult_le_0_compat. Qed.

Lemma le_plus_nonneg x y : 0 <= y -> x <= x + y.
Proof. to_Q. intros H. lra. Qed.

Lemma inv_pos x : 0 < x -> 0 < / x.
Proof.
  unfold Qclt. rewrite this_inv. change (this 0) with 0%Q.
  apply Qinv_lt_0_compat.
Qed.

Lemma pow_pos x (t : nat) : 0 < x -> 0 < Py.pow x t.
Proof.
  intros X. unfold Py.pow. induction t as [| t IH]; simpl.
  - reflexivity.
  - to_Q. apply Qmult_lt_0_compat; assumption.
Qed.

Lemma pow_nonzero x (t : nat) : x <> 0 -> Py.pow x t <> 0.
Proof.
  intros X. unfold Py.pow. induction t as [| t IH]; simpl.
  - discriminate.
  - intros H. apply Qcmult_integral in H. tauto.
Qed.

Lemma one_plus_pos r : 0 <= r -> 0 < 1 + r /\ 1 <= 1 + r.
Proof. to_Q. intros H. split; lra. Qed.

Lemma minus_one_lt r : - (1) < r -> 1 + r <> 0.
Proof.
  intros H Z. assert (E : r = - (1)).
  { replace r with (1 + r - 1) by ring. rewrite Z. ring. }
  rewrite E in H. discriminate H.
Qed.

Lemma pos_nonzero x : 0 < x -> x <> 0.
Proof. intros H Z. rewrite Z in H. discriminate H. Qed.

Lemma inv_le_one x : 1 <= x -> / x <= 1.
Proof.
  intros H.
  assert (P : 0 < x) by (apply Qclt_le_trans with 1; [reflexivity | exact H]).
  apply Qcmult_lt_0_le_reg_r with x; [exact P |].
  replace (/ x * x) with 1.
  - rewrite Qcmult_1_l. exact H.
  - field. apply pos_nonzero. exact P.
Qed.

Lemma max_zero_spec x :
  (0 < x -> Py.max 0 x = x) /\ (x <= 0 -> Py.max 0 x = 0).
Proof.
  unfold Py.max. split; intros H.
  - apply ltb_lt in H. rewrite H. reflexivity.
  - apply ltb_ge in H. rewrite H. reflexivity.
Qed.

Lemma div_ok x y : y <> 0 -> Py.div x y = inr (x / y).
Proof.
  intros H. unfold Py.div. apply truthy_iff in H. rewrite H. reflexivity.
Qed.

Lemma div_zero x : Py.div x 0 = inl ZeroDivisionError.
Proof. reflexivity. Qed.

Lemma of_int_succ (n : nat) :
  Py.of_int (Z.of_nat (S n)) = Py.of_int (Z.of_nat n) + 1.
Proof.
  apply Qc_is_canon. rewrite this_plus, !this_of_int.
  rewrite Nat2Z.inj_succ. unfold Z.succ. rewrite inject_Z_plus. reflexivity.
Qed.

Lemma of_int_nat_pos (n : nat) : Py.of_int (Z.of_nat (S n)) <> 0.
Proof.
  intros H. apply (f_equal this) in H.
  pose proof (this_of_int (Z.of_nat (S n))) as T. rewrite H in T.
  change (this 0) with (inject_Z 0) in T. rewrite inject_Z_injective in T. lia.
Qed.

End FloatOrder.

(** ** Timelines of remaining years *)

Lemma frac_part_range (x : Qc) : 0 <= frac_part x /\ frac_part x < 1.
Proof.
  unfold frac_part, Qcle, Qclt, Py.floor. rewrite this_minus, this_of_int.
  pose proof (Qfloor_le (this x)) as Lo. pose proof (Qlt_floor (this x)) as Hi.
  rewrite inject_Z_plus in Hi. change (inject_Z 1) with 1%Q in Hi.
  change (this 0) with 0%Q. change (this 1) with 1%Q.
  generalize dependent (inject_Z (Qfloor (this x))). generalize (this x).
  intros a b ? ?. split; lra.
Qed.

Lemma ceil_of_floor (x : Qc) :
  (frac_part x = 0 -> Py.ceil x = Py.floor x) /\
  (0 < frac_part x -> Py.ceil x = (Py.floor x + 1)%Z).
Proof.
  unfold frac_part, Py.ceil, Py.floor.
  pose proof (Qfloor_le (this x)) as F1. pose proof (Qlt_floor (this x)) as F2.
  pose proof (Qle_ceiling (this x)) as C1. pose proof (Qceiling_lt (this x)) as C2.
  split; intros H.
  - assert (E : (this x == inject_Z (Qfloor (this x)))%Q).
    { apply (f_equal this) in H. change (this 0) with 0%Q in H.
      pose proof (this_minus x (Py.of_int (Qfloor (this x)))) as M.
      rewrite H, this_of_int in M. lra. }
    rewrite E at 1. apply Qceiling_Z.
  - assert (L : (inject_Z (Qfloor (this x)) < this x)%Q).
    { unfold Qclt in H. rewrite this_minus, this_of_int in H.
      change (this 0) with 0%Q in H. lra. }
    assert (A : (inject_Z (Qfloor (this x)) < inject_Z (Qceiling (this x)))%Q)
      by lra.
    assert (B : (inject_Z (Qceiling (this x) - 1)
                 < inject_Z (Qfloor (this x) + 1))%Q) by lra.
    rewrite <- Zlt_Qlt in A, B. lia.
Qed.

Lemma floor_nonneg (x : Qc) : 0 <= x -> (0 <= Py.floor x)%Z.
Proof.
  intros H. unfold Py.floor. change 0%Z with (Qfloor 0).
  apply Qfloor_resp_le. exact H.
Qed.

Lemma epsilon_pos : 0 < epsilon.
Proof. reflexivity. Qed.

Lemma Forall_repeat_one (n : nat) : Forall unit_fraction (repeat 1 n).
Proof.
  induction n; simpl; constructor; auto.
  split; [reflexivity | apply Qcle_refl].
Qed.

(** The list both estimators build from their remaining-years value. *)
Lemma timeline_ok_build (years : Qc) :
  timeline_ok years
    (if Py.ltb epsilon (years - Py.of_int (Py.floor years))
     then Py.replicate 1 (Py.floor years)
            ++ [years - Py.of_int (Py.floor years)]
     else Py.replicate 1 (Py.floor years)).
Proof.
  fold (frac_part years). unfold timeline_ok, Py.replicate.
  destruct (frac_part_range years) as [F0 F1].
  destruct (ceil_of_floor years) as [C0 C1].
  destruct (Py.ltb epsilon (frac_part years)) eqn:E.
  - apply ltb_lt in E. repeat split.
    + intros L. exfalso. exact (Qcle_not_lt _ _ L E).
    + apply Forall_app. split; [apply Forall_repeat_one |].
      constructor; [| constructor]. split.
      * exact (Qclt_trans _ _ _ epsilon_pos E).
      * apply Qclt_le_weak; exact F1.
    + intros P _. rewrite length_app, repeat_length. simpl.
      rewrite C1 by exact (Qclt_trans _ _ _ epsilon_pos E).
      pose proof (floor_nonneg years P). lia.
  - apply ltb_ge in E. repeat split.
    + intros L. exfalso. exact (Qcle_not_lt _ _ E L).
    + apply Forall_repeat_one.
    + intros P [Z | L].
      * rewrite repeat_length, C0 by exact Z.
        pose proof (floor_nonneg years P). lia.
      * exfalso. exact (Qcle_not_lt _ _ E L).
Qed.

(** C9, as the code has it.  Whatever remaining-years value either estimator
    returns, its timeline is [max(0, floor(years))] entries of 1.0 followed
    by the fractional part exactly when that part exceeds 1e-6; every entry
    lies in (0, 1]; and for [years >= 0] whose fractional part is 0 or
    exceeds 1e-6 the length is [ceil(years)]. *)
Theorem timeline_of_estimate (years : Qc) (fr : list Qc) :
  produced years fr -> timeline_ok years fr.
Proof.
  intros [env age sex ov H | age hint act edu ov H].
  - unfold _compute_life_expectancy in H.
    match type of H with
    | bind ?m _ = _ => destruct m as [e | le]; simpl in H
    end.
    + discriminate.
    + unfold ret in H. injection H as <- <-. apply timeline_ok_build.
  - unfold _compute_worklife_expectancy in H.
    injection H as <- <-. apply timeline_ok_build.
Qed.

Lemma timeline_of_estimate_witness :
  produced (Q2Qc (41 # 2)) (repeat 1 20%nat ++ [Q2Qc (1 # 2)]) /\
  timeline_ok (Q2Qc (41 # 2)) (repeat 1 20%nat ++ [Q2Qc (1 # 2)]).
Proof.
  assert (P : produced (Q2Qc (41 # 2)) (repeat 1 20%nat ++ [Q2Qc (1 # 2)])).
  { apply produced_worklife
      with (age := Py.of_int 45) (hint := Q2Qc (131 # 2))
           (act := "active"%string) (edu := "BA"%string) (ov := None).
    reflexivity. }
  split; [exact P | apply (timeline_of_estimate _ _ P)].
Defined.

(** C9 as stated fails on the length: a remaining work life of 0.0000005
    years (age 0, retirement hint 0.0000005) has an empty timeline, while
    its ceiling is 1. *)
Lemma tiny_remainder_counterexample :
  exists wle portions,
    _compute_worklife_expectancy 0 (Q2Qc (1 # 2000000)) "active" "Other" None
      = (wle, portions) /\
    produced wle portions /\
    portions = [] /\
    Py.ceil wle = 1%Z /\
    Z.of_nat (List.length portions) <> Py.ceil wle.
Proof.
  exists (Q2Qc (1 # 2000000)), []. split; [reflexivity | split].
  - apply produced_worklife
      with (age := 0) (hint := Q2Qc (1 # 2000000))
           (act := "active"%string) (edu := "Other"%string) (ov := None).
    reflexivity.
  - split; [reflexivity | split; [reflexivity |]]. vm_compute. discriminate.
Qed.

(** ** Life expectancy from the table *)

Lemma rows_at_ex_at (table : LifeTable) (a : Z) :
  match rows_at table a with
  | [] => ex_at table a = None
  | r :: _ => ex_at table a = Some (ex r)
  end.
Proof.
  unfold rows_at, ex_at. induction table as [| r t IH]; simpl; trivial.
  destruct (age_int r =? a)%Z; simpl; trivial.
Qed.

Lemma ex_at_none (table : LifeTable) (a : Z) :
  ex_at table a = None <-> forall r, In r table -> age_int r <> a.
Proof.
  unfold ex_at. split.
  - intros H r I E.
    destruct (find (fun r0 => (age_int r0 =? a)%Z) table) eqn:F;
      [discriminate |].
    apply (find_none _ _ F) in I. apply Z.eqb_neq in I. contradiction.
  - intros H.
    destruct (find (fun r0 => (age_int r0 =? a)%Z) table) eqn:F; trivial.
    apply find_some in F. destruct F as [I E]. apply Z.eqb_eq in E.
    exfalso. exact (H _ I E).
Qed.

(** C4.  With no override and the table loaded, the estimator looks up
    [floor(age)]: with no row of that age the result is [max(0, 78.4 - age)];
    with a row, it is [ex(floor) - frac * (ex(floor) - ex(floor+1))] for the
    fractional part [frac] of the age, and [ex(floor)] itself when no row of
    age [floor+1] exists. *)
Theorem life_expectancy_lookup (env : Env) (table : LifeTable)
    (age : Qc) (sex : string) :
  table_file env = Some table ->
  exists le fr,
    _compute_life_expectancy env age sex None = inr (le, fr) /\
    let fl := Py.floor age in
    let frac := age - Py.of_int fl in
    match ex_at table fl, ex_at table (fl + 1) with
    | None, _ =>
        (forall r, In r table -> age_int r <> fl) /\
        le = Py.max 0 (birth_expectation - age) /\
        0 <= le /\ birth_expectation - age <= le /\
        (le = 0 \/ le = birth_expectation - age)
    | Some e, Some e' => le = e - frac * (e - e')
    | Some e, None =>
        (forall r, In r table -> age_int r <> (fl + 1)%Z) /\ le = e
    end.
Proof.
  intros T. unfold _compute_life_expectancy, _load_life_table. rewrite T.
  cbn [bind ret].
  pose proof (rows_at_ex_at table (Py.floor age)) as R0.
  pose proof (rows_at_ex_at table (Py.floor age + 1)) as R1.
  destruct (rows_at table (Py.floor age)) as [| r0 t0].
  - cbn [bind ret]. eexists _, _. split; [reflexivity |]. cbv zeta. rewrite R0.
    split; [apply ex_at_none; exact R0 |]. split; [reflexivity |].
    destruct (max_zero_spec (birth_expectation - age)) as [M1 M2].
    destruct (Qclt_le_dec 0 (birth_expectation - age)) as [L | L].
    + rewrite (M1 L). repeat split.
      * apply Qclt_le_weak; exact L.
      * apply Qcle_refl.
      * right; reflexivity.
    + rewrite (M2 L). repeat split.
      * apply Qcle_refl.
      * exact L.
      * left; reflexivity.
  - destruct (rows_at table (Py.floor age + 1)) as [| r1 t1].
    + cbn [bind ret]. eexists _, _. split; [reflexivity |]. cbv zeta.
      rewrite R0, R1. split; [apply ex_at_none; exact R1 | reflexivity].
    + cbn [bind ret]. eexists _, _. split; [reflexivity |]. cbv zeta.
      rewrite R0, R1. reflexivity.
Qed.

Lemma life_expectancy_lookup_witness :
  table_file env_with_table = Some table_excerpt /\
  exists fr,
    _compute_life_expectancy env_with_table (Q2Qc (91 # 2)) "male"%string None
      = inr (Q2Qc (3475 # 100), fr).
Proof.
  split; [reflexivity |].
  destruct (life_expectancy_lookup env_with_table table_excerpt
              (Q2Qc (91 # 2)) "male"%string eq_refl)
    as (le & fr & E & S).
  exists fr. rewrite E. f_equal. f_equal. exact S.
Defined.

(** C2, on the code.  With no override and the workbook missing, the
    estimator raises [FileNotFoundError] for every age and sex instead of
    falling back to [78.4 - age], and so does a whole run. *)
Theorem missing_table_raises :
  (forall (age : Qc) (sex : string),
     _compute_life_expectancy env_without_table age sex None
     = inl (FileNotFoundError
         "Life table file not found. Please ensure Table01.xlsx is in the same directory.")) /\
  run_case env_without_table case_no_override
  = inl (FileNotFoundError
      "Life table file not found. Please ensure Table01.xlsx is in the same directory.").
Proof. split; [intros age sex |]; reflexivity. Qed.

(** ** Wage history *)

Lemma compounding_tail (g x : Qc) (l : list Qc) :
  compounding g (x :: l) -> compounding g l.
Proof. intros H. inversion H; subst; [constructor | assumption]. Qed.

Lemma wages_back_compounding (g : Qc) (years : nat) :
  1 + g <> 0 ->
  forall wages cur, compounding g (cur :: wages) ->
  exists w, wages_back g years wages cur = inr w /\
            compounding g w /\
            List.length w = (years + List.length wages)%nat.
Proof.
  intros G. induction years as [| k IH]; intros wages cur C; simpl.
  - exists wages. split; [reflexivity | split; [| reflexivity]].
    exact (compounding_tail _ _ _ C).
  - rewrite (div_ok cur _ G). cbn [bind].
    assert (N : cur <> 0) by (inversion C; assumption).
    destruct (IH (cur :: wages) (cur / (1 + g))) as (w & E & Cw & L).
    + constructor; trivial.
      * intros Z. apply N.
        replace cur with (cur / (1 + g) * (1 + g)) by (field; exact G).
        rewrite Z. ring.
      * field. exact G.
    + exists w. split; [exact E | split; [exact Cw |]].
      rewrite L. simpl. lia.
Qed.

Lemma yoy_of_compounding (g : Qc) (w : list Qc) :
  compounding g w -> yoy_of w = repeat g (List.length w - 1).
Proof.
  induction 1 as [| x N | x y l N E C IH]; trivial.
  change (yoy_of (x :: y :: l))
    with ((if Py.truthy x then (y - x) / x else 0) :: yoy_of (y :: l)).
  rewrite IH. apply truthy_iff in N as T. rewrite T.
  replace ((y - x) / x) with g by (subst y; field; exact N).
  simpl. rewrite Nat.sub_0_r. reflexivity.
Qed.

Lemma fold_left_plus_acc (xs : list Qc) (a : Qc) :
  fold_left Qcplus xs a = a + fold_left Qcplus xs 0.
Proof.
  revert a. induction xs as [| x xs IH]; intros a; simpl.
  - ring.
  - rewrite (IH (a + x)), (IH (0 + x)). ring.
Qed.

Lemma sum_nil : Py.sum [] = 0.
Proof. reflexivity. Qed.

Lemma sum_cons (x : Qc) (xs : list Qc) : Py.sum (x :: xs) = x + Py.sum xs.
Proof. unfold Py.sum. simpl. rewrite fold_left_plus_acc. ring. Qed.

Lemma sum_repeat (g : Qc) (n : nat) :
  Py.sum (repeat g n) = Py.of_int (Z.of_nat n) * g.
Proof.
  induction n as [| n IH].
  - cbn [repeat]. rewrite sum_nil. change (Py.of_int (Z.of_nat 0)) with 0. ring.
  - cbn [repeat]. rewrite sum_cons, IH, of_int_succ. ring.
Qed.

(** The reconstruction for a non-zero salary and a rate other than -1. *)
Lemma wage_growth_series_mean (base g : Qc) (years : nat) :
  base <> 0 -> 1 + g <> 0 -> (2 <= years)%nat ->
  exists df,
    _compute_wage_growth_series base g years = inr (df, g) /\
    compounding g (MeanWage df) /\
    List.length (MeanWage df) = years /\
    YoYGrowth df = None :: repeat (Some g) (years - 1).
Proof.
  intros B G Y. unfold _compute_wage_growth_series.
  destruct (wages_back_compounding g years G [] base) as (w & E & C & L).
  { constructor. exact B. }
  rewrite E. cbn [bind]. simpl in L. rewrite Nat.add_0_r in L.
  rewrite (yoy_of_compounding _ _ C), L.
  destruct years as [| [| k]]; try lia.
  replace (S (S k) - 1)%nat with (S k) by lia.
  cbn [repeat]. cbn [List.length map]. rewrite repeat_length.
  eexists. split.
  - unfold ret. f_equal. f_equal.
    change (g :: repeat g k) with (repeat g (S k)).
    rewrite sum_repeat. field. apply of_int_nat_pos.
  - cbn. split; [exact C | split; [exact L |]].
    rewrite map_repeat. reflexivity.
Qed.

Lemma wage_growth_zero_divisor (base g : Qc) (years : nat) :
  1 + g = 0 ->
  _compute_wage_growth_series base g (S years) = inl ZeroDivisionError.
Proof.
  intros Z. unfold _compute_wage_growth_series. cbn [wages_back].
  rewrite Z, div_zero. reflexivity.
Qed.

Lemma pow_succ (x : Qc) (n : nat) : x ^ S n = x * x ^ n.
Proof. reflexivity. Qed.

Lemma pow_add (x : Qc) (m n : nat) : x ^ (m + n) = x ^ m * x ^ n.
Proof.
  induction m as [| m IH]; simpl.
  - ring.
  - rewrite IH. ring.
Qed.

Lemma wages_back_closed (g : Qc) :
  1 + g <> 0 ->
  forall (years : nat) (wages : list Qc) (cur : Qc),
    wages_back g years wages cur
    = inr (map (fun i => cur / (1 + g) ^ (years - 1 - i)) (seq 0 years)
           ++ wages).
Proof.
  intros G. induction years as [| k IH]; intros wages cur.
  - reflexivity.
  - cbn [wages_back]. rewrite (div_ok cur _ G). cbn [bind]. rewrite IH.
    f_equal. rewrite seq_S, map_app, <- app_assoc. cbn [map app Nat.add].
    f_equal.
    + apply map_ext_in. intros i I. apply in_seq in I.
      replace (S k - 1 - i)%nat with (S (k - 1 - i)) by lia.
      rewrite pow_succ. field. split; [apply (pow_nonzero _ _ G) | exact G].
    + replace (S k - 1 - k)%nat with 0%nat by lia. simpl.
      f_equal. field. discriminate.
Qed.


(** The reconstruction returns whenever the rate is not -1 and the window
    has at least one year. *)
Lemma wage_growth_series_runs (base g : Qc) (years : nat) :
  1 + g <> 0 -> (1 <= years)%nat ->
  exists df avg,
    _compute_wage_growth_series base g years = inr (df, avg) /\
    MeanWage df
    = map (fun i => base / (1 + g) ^ (years - 1 - i)) (seq 0 years) /\
    wage_YearIndex df = seq 0 years /\
    YoYGrowth df = None :: map Some (yoy_of (MeanWage df)) /\
    avg = match yoy_of (MeanWage df) with
          | [] => 0
          | _ :: _ =>
              Py.sum (yoy_of (MeanWage df))
              / Py.of_int (Z.of_nat (List.length (yoy_of (MeanWage df))))
          end.
Proof.
  intros G Y. unfold _compute_wage_growth_series.
  rewrite (wages_back_closed g G). cbn [bind]. rewrite app_nil_r.
  remember (map (fun i => base / (1 + g) ^ (years - 1 - i)) (seq 0 years))
    as w eqn:W.
  assert (L : List.length w = years)
    by (rewrite W, length_map, length_seq; reflexivity).
  eexists _, _. split; [reflexivity |]. cbn. unfold Py.range. rewrite L.
  repeat split.
Qed.

(** C5.  For a positive base salary and a growth rate above -1, over exact
    arithmetic, the mean growth the reconstructor returns is the input rate:
    the first year carries no growth, every later year carries the rate
    itself, and their arithmetic mean is the rate -- for the default window
    of 7 years and for every window of at least 2 years. *)
Theorem wage_growth_mean_is_rate (base g : Qc) :
  0 < base -> - (1) < g ->
  (exists df,
     _compute_wage_growth_series base g 7 = inr (df, g) /\
     YoYGrowth df = None :: repeat (Some g) 6 /\
     Py.sum (repeat g 6) / Py.of_int 6 = g) /\
  (forall years, (2 <= years)%nat ->
     exists df,
       _compute_wage_growth_series base g years = inr (df, g) /\
       List.length (MeanWage df) = years /\
       YoYGrowth df = None :: repeat (Some g) (years - 1) /\
       Py.sum (repeat g (years - 1)) / Py.of_int (Z.of_nat (years - 1)) = g).
Proof.
  intros B G.
  pose proof (pos_nonzero _ B) as B'. pose proof (minus_one_lt _ G) as G'.
  assert (M : forall k, Py.sum (repeat g (S k)) / Py.of_int (Z.of_nat (S k)) = g).
  { intros k. rewrite sum_repeat. field. apply of_int_nat_pos. }
  split.
  - destruct (wage_growth_series_mean base g 7 B' G') as (df & E & _ & _ & Y);
      [lia |].
    exists df. split; [exact E | split; [exact Y | exact (M 5%nat)]].
  - intros years Y.
    destruct (wage_growth_series_mean base g years B' G' Y)
      as (df & E & _ & L & YY).
    exists df. split; [exact E | split; [exact L | split; [exact YY |]]].
    destruct years as [| k]; [lia |].
    replace (S k - 1)%nat with k by lia.
    destruct k as [| k]; [lia |]. apply M.
Qed.

Lemma wage_growth_mean_is_rate_witness :
  0 < Py.of_int 86900 /\ - (1) < Q2Qc (28 # 1000) /\
  exists df,
    _compute_wage_growth_series (Py.of_int 86900) (Q2Qc (28 # 1000)) 7
    = inr (df, Q2Qc (28 # 1000)).
Proof.
  split; [reflexivity | split; [reflexivity |]].
  destruct (wage_growth_mean_is_rate (Py.of_int 86900) (Q2Qc (28 # 1000))
              eq_refl eq_refl) as ((df & E & _) & _).
  exists df. exact E.
Defined.

(** ** Discount factors *)

Lemma nth_map_seq (f : nat -> Qc) (n t : nat) :
  (t < n)%nat -> nth t (map f (seq 0 n)) 0 = f t.
Proof.
  intros T. rewrite nth_indep with (d' := f 0%nat)
    by (rewrite length_map, length_seq; exact T).
  rewrite map_nth, seq_nth by exact T. reflexivity.
Qed.

Lemma factors_of_ok (rate : Qc) (ts : list nat) :
  1 + rate <> 0 ->
  factors_of rate ts = inr (map (fun t => 1 / Py.pow (1 + rate) t) ts).
Proof.
  intros R. induction ts as [| t ts IH]; simpl; trivial.
  rewrite (div_ok 1 _ (pow_nonzero _ t R)), IH. reflexivity.
Qed.

Lemma factor_step (r : Qc) (t : nat) :
  0 <= r -> 1 / Py.pow (1 + r) (S t) <= 1 / Py.pow (1 + r) t.
Proof.
  intros R. destruct (one_plus_pos r R) as [P L].
  pose proof (pos_nonzero _ P) as N.
  pose proof (pow_nonzero _ t N) as NT. unfold Py.pow in *.
  replace (1 / (1 + r) ^ S t) with (/ (1 + r) * (1 / (1 + r) ^ t))
    by (simpl; field; split; assumption).
  rewrite <- (Qcmult_1_l (1 / (1 + r) ^ t)) at 2.
  apply Qcmult_le_compat_r.
  - apply inv_le_one. exact L.
  - apply Qclt_le_weak. unfold Qcdiv. rewrite Qcmult_1_l.
    apply inv_pos. apply (pow_pos _ t P).
Qed.

Lemma factors_of_minus_one (rate : Qc) (k : nat) :
  1 + rate = 0 ->
  factors_of rate (seq 0 (S (S k))) = inl ZeroDivisionError.
Proof.
  intros Z. cbn [seq factors_of]. rewrite Z. reflexivity.
Qed.

Lemma factors_of_single (rate : Qc) : factors_of rate (seq 0 1) = inr [1].
Proof. reflexivity. Qed.

(** The discounter returns exactly when the rate is not -1 or the horizon
    is at most one year, and then with the closed-form factors. *)
Lemma discount_runs (rate : Qc) (n : nat) :
  1 + rate <> 0 \/ (n <= 1)%nat ->
  _compute_discount_factors rate n
  = inr (mkDiscountFrame (seq 0 n)
           (map (fun t => 1 / (1 + rate) ^ t) (seq 0 n))).
Proof.
  unfold _compute_discount_factors, Py.range. intros [G | N].
  - rewrite (factors_of_ok _ _ G). reflexivity.
  - destruct n as [| [| k]]; [reflexivity | reflexivity | lia].
Qed.

(** C6, as the code has it, over exact arithmetic (the powers neither
    overflow nor underflow).  For every discount rate and horizon [n] other
    than the rate -1 with a horizon of two years or more, the discounter
    returns [n] factors with [factor[t] = 1 / (1 + rate)^t]; [factor[0]] is
    1 whenever [n >= 1]; for [rate >= 0] the factors never increase; for
    [rate = 0] they are all 1. *)
Theorem discount_factors_spec (rate : Qc) (n : nat) :
  rate <> - (1) \/ (n <= 1)%nat ->
  exists df,
    _compute_discount_factors rate n = inr df /\
    disc_YearIndex df = seq 0 n /\
    List.length (DiscountFactor df) = n /\
    (forall t, (t < n)%nat ->
       nth t (DiscountFactor df) 0 = 1 / (1 + rate) ^ t) /\
    ((1 <= n)%nat -> nth 0 (DiscountFactor df) 0 = 1) /\
    (0 <= rate -> forall t, (S t < n)%nat ->
       nth (S t) (DiscountFactor df) 0 <= nth t (DiscountFactor df) 0) /\
    (rate = 0 -> forall t, (t < n)%nat -> nth t (DiscountFactor df) 0 = 1).
Proof.
  intros R.
  assert (C : 1 + rate <> 0 \/ (n <= 1)%nat).
  { destruct R as [R | N]; [left | right; exact N].
    intros Z. apply R. replace rate with (1 + rate - 1) by ring.
    rewrite Z. ring. }
  rewrite (discount_runs rate n C).
  eexists. split; [reflexivity |]. cbn [disc_YearIndex DiscountFactor].
  assert (NTH : forall t, (t < n)%nat ->
            nth t (map (fun t0 => 1 / (1 + rate) ^ t0) (seq 0 n)) 0
            = 1 / (1 + rate) ^ t).
  { intros t T. rewrite nth_map_seq by exact T. reflexivity. }
  split; [reflexivity |].
  split; [rewrite length_map, length_seq; reflexivity |].
  split; [exact NTH |]. split; [| split].
  - intros L. rewrite NTH by lia. reflexivity.
  - intros P t T. rewrite !NTH by lia. apply (factor_step _ t P).
  - intros Z t T. rewrite NTH by exact T. subst rate.
    replace (1 + 0) with 1 by ring. rewrite Qcpower_1. reflexivity.
Qed.

Lemma discount_factors_spec_witness :
  (Q2Qc (37 # 1000) <> - (1) \/ (3 <= 1)%nat) /\
  exists df,
    _compute_discount_factors (Q2Qc (37 # 1000)) 3 = inr df /\
    nth 1 (DiscountFactor df) 0 <= nth 0 (DiscountFactor df) 0.
Proof.
  assert (R : Q2Qc (37 # 1000) <> - (1) \/ (3 <= 1)%nat)
    by (left; discriminate).
  split; [exact R |].
  destruct (discount_factors_spec (Q2Qc (37 # 1000)) 3 R)
    as (df & E & _ & _ & _ & _ & M & _).
  exists df. split; [exact E |]. apply M; [discriminate | lia].
Defined.

(** C6 as stated fails at the rate -1: for a horizon of two years the second
    factor divides by [0.0 ** 1] and the discounter raises. *)
Lemma discount_rate_minus_one_counterexample :
  _compute_discount_factors (- (1)) 2 = inl ZeroDivisionError.
Proof. reflexivity. Qed.

(** ** Present values *)

Lemma sum_firstn_succ (l : list Qc) (k : nat) :
  (k < List.length l)%nat ->
  Py.sum (firstn (S k) l) = Py.sum (firstn k l) + nth k l 0.
Proof.
  revert k. induction l as [| x l IH]; intros k K; simpl in K; [lia |].
  destruct k as [| k].
  - simpl. rewrite sum_cons, sum_nil. ring.
  - change (firstn (S (S k)) (x :: l)) with (x :: firstn (S k) l).
    change (firstn (S k) (x :: l)) with (x :: firstn k l).
    rewrite !sum_cons, IH by lia. simpl. ring.
Qed.

Lemma getitem_ok (xs : list Qc) (i : nat) :
  (i < List.length xs)%nat -> getitem xs i = inr (nth i xs 0).
Proof.
  intros I. unfold getitem.
  destruct (nth_error xs i) eqn:E.
  - rewrite (nth_error_nth _ _ 0 E). reflexivity.
  - apply nth_error_None in E. lia.
Qed.

Lemma last_nth (l : list Qc) :
  last l 0 = nth (List.length l - 1) l 0.
Proof.
  induction l as [| x [| y l] IH]; trivial.
  change (last (x :: y :: l) 0) with (last (y :: l) 0). rewrite IH.
  simpl. rewrite Nat.sub_0_r. reflexivity.
Qed.

Lemma pv_from_spec (factors : list Qc) :
  forall (todo : list Qc) (i : nat) (cum : Qc),
    (i + List.length todo <= List.length factors)%nat ->
    exists pv cml,
      pv_from factors i cum todo = inr (pv, cml) /\
      List.length pv = List.length todo /\
      List.length cml = List.length todo /\
      (forall t, (t < List.length todo)%nat ->
         nth t pv 0 = nth t todo 0 * nth (i + t) factors 0) /\
      (forall t, (t < List.length todo)%nat ->
         nth t cml 0 = cum + Py.sum (firstn (S t) pv)).
Proof.
  induction todo as [| a rest IH]; intros i cum L; simpl in L.
  - exists [], []. simpl. repeat split; intros; lia.
  - cbn [pv_from]. rewrite getitem_ok by lia. cbn [bind].
    destruct (IH (S i) (cum + a * nth i factors 0))
      as (pv & cml & E & Lp & Lc & P & C); [lia |].
    rewrite E. cbn [bind ret].
    eexists _, _. split; [reflexivity |]. simpl. repeat split; try lia.
    + intros [| t] T.
      * rewrite Nat.add_0_r. reflexivity.
      * rewrite P by lia. replace (S i + t)%nat with (i + S t)%nat by lia.
        reflexivity.
    + intros [| t] T.
      * simpl. rewrite sum_cons, sum_nil. ring.
      * rewrite C by lia.
        change (firstn (S (S t)) (a * nth i factors 0 :: pv))
          with (a * nth i factors 0 :: firstn (S t) pv).
        rewrite sum_cons. ring.
Qed.

(** C7.  For earnings and factors of equal length the aggregator returns
    [earnings[t] * factor[t]] per year and their running sum; the last
    cumulative value is the sum of all per-year present values; and with
    non-negative earnings and factors the cumulative values never decrease. *)
Theorem present_values_spec (actual_values discount_factors : list Qc) :
  List.length actual_values = List.length discount_factors ->
  exists df,
    _compute_present_values actual_values discount_factors = inr df /\
    pv_YearIndex df = seq 0 (List.length actual_values) /\
    List.length (PresentValue df) = List.length actual_values /\
    List.length (CumulativePV df) = List.length actual_values /\
    (forall t, (t < List.length actual_values)%nat ->
       nth t (PresentValue df) 0
       = nth t actual_values 0 * nth t discount_factors 0) /\
    (forall t, (t < List.length actual_values)%nat ->
       nth t (CumulativePV df) 0 = Py.sum (firstn (S t) (PresentValue df))) /\
    last (CumulativePV df) 0 = Py.sum (PresentValue df) /\
    (Forall (Qcle 0) actual_values -> Forall (Qcle 0) discount_factors ->
     forall t, (S t < List.length actual_values)%nat ->
       nth t (CumulativePV df) 0 <= nth (S t) (CumulativePV df) 0).
Proof.
  intros L. unfold _compute_present_values.
  destruct (pv_from_spec discount_factors actual_values 0 0)
    as (pv & cml & E & Lp & Lc & P & C); [simpl; lia |].
  rewrite E. cbn [bind ret]. eexists. split; [reflexivity |].
  cbn [pv_YearIndex PresentValue CumulativePV].
  assert (C' : forall t, (t < List.length actual_values)%nat ->
             nth t cml 0 = Py.sum (firstn (S t) pv)).
  { intros t T. rewrite C by exact T. ring. }
  split; [reflexivity |]. split; [exact Lp |]. split; [exact Lc |].
  split; [exact P |]. split; [exact C' |]. split.
  - rewrite last_nth, Lc.
    destruct (List.length actual_values) as [| k] eqn:K.
    + destruct pv; [| discriminate]. destruct cml; [| discriminate].
      reflexivity.
    + rewrite C' by lia. replace (S (S k - 1)) with (List.length pv) by lia.
      rewrite firstn_all. reflexivity.
  - intros A F t T. rewrite !C' by lia.
    rewrite (sum_firstn_succ pv (S t)) by lia.
    apply le_plus_nonneg. rewrite P by lia. simpl.
    rewrite Forall_forall in A, F.
    apply mult_nonneg; [apply A | apply F]; apply nth_In; lia.
Qed.

Lemma present_values_spec_witness :
  List.length [Py.of_int 100; Py.of_int 200]
  = List.length [1; Q2Qc (1 # 2)] /\
  exists df,
    _compute_present_values [Py.of_int 100; Py.of_int 200] [1; Q2Qc (1 # 2)]
    = inr df /\
    last (CumulativePV df) 0 = Py.sum (PresentValue df).
Proof.
  split; [reflexivity |].
  destruct (present_values_spec [Py.of_int 100; Py.of_int 200]
              [1; Q2Qc (1 # 2)] eq_refl)
    as (df & E & _ & _ & _ & _ & _ & S & _).
  exists df. split; [exact E | exact S].
Defined.

(** ** Earnings projection *)

Lemma project_from_spec (g : Qc) :
  forall (portions : list Qc) (i : nat) (current : Qc),
    let start := current * (if Nat.ltb 0 i then 1 + g else 1) in
    let full := fst (project_from g i current portions) in
    let actual := snd (project_from g i current portions) in
    List.length full = List.length portions /\
    List.length actual = List.length portions /\
    (forall t, (t < List.length portions)%nat ->
       nth t full 0 = start * (1 + g) ^ t) /\
    (forall t, (t < List.length portions)%nat ->
       nth t actual 0 = nth t full 0 * nth t portions 0).
Proof.
  induction portions as [| p rest IH]; intros i current; cbv zeta.
  - simpl. repeat split; intros; lia.
  - cbn [project_from].
    specialize (IH (S i) (current * (if Nat.ltb 0 i then 1 + g else 1))).
    cbv zeta in IH.
    destruct (project_from g (S i)
                (current * (if Nat.ltb 0 i then 1 + g else 1)) rest)
      as [full actual].
    cbn [fst snd] in *. destruct IH as (Lf & La & F & A).
    simpl. repeat split; try lia.
    + intros [| t] T.
      * simpl. ring.
      * rewrite F by lia. simpl. ring.
    + intros [| t] T.
      * reflexivity.
      * apply A. lia.
Qed.

(** The projector on any portion sequence. *)
Lemma projections_spec (base_salary r : Qc) (portions : list Qc) :
  let df := fst (_compute_projections base_salary r portions) in
  let full_year_values := snd (_compute_projections base_salary r portions) in
  let n := List.length portions in
  FullYearValue df = full_year_values /\
  PortionOfYear df = portions /\
  proj_YearIndex df = seq 0 n /\
  List.length full_year_values = n /\
  List.length (ActualValue df) = n /\
  (forall t, (t < n)%nat ->
     nth t full_year_values 0 = base_salary * (1 + r) ^ t) /\
  (forall t, (t < n)%nat ->
     nth t (ActualValue df) 0 = nth t full_year_values 0 * nth t portions 0).
Proof.
  cbv zeta. unfold _compute_projections.
  pose proof (project_from_spec r portions 0 base_salary) as S. cbv zeta in S.
  destruct (project_from r 0 base_salary portions) as [full actual].
  cbn [fst snd FullYearValue PortionOfYear proj_YearIndex ActualValue] in *.
  destruct S as (Lf & La & F & A).
  repeat split; trivial.
  intros t T. rewrite F by exact T. simpl. ring.
Qed.

(** C8.  With every portion equal to 1.0 the full-year values are exactly
    the geometric series [base * (1 + r)^t] for [t = 0..N-1], the first one
    being the base salary, and each fraction-adjusted value is
    [full_year_value[t] * portion[t]], here the full-year value itself. *)
Theorem projections_geometric (base_salary r : Qc) (portions : list Qc) :
  Forall (fun p => p = 1) portions ->
  let df := fst (_compute_projections base_salary r portions) in
  let full_year_values := snd (_compute_projections base_salary r portions) in
  let n := List.length portions in
  full_year_values = map (fun t => base_salary * (1 + r) ^ t) (seq 0 n) /\
  FullYearValue df = full_year_values /\
  ((1 <= n)%nat -> nth 0 full_year_values 0 = base_salary) /\
  (forall t, (t < n)%nat ->
     nth t (ActualValue df) 0 = nth t full_year_values 0 * nth t portions 0) /\
  ActualValue df = full_year_values.
Proof.
  intros ONES. cbv zeta.
  destruct (projections_spec base_salary r portions)
    as (FV & _ & _ & Lf & La & F & A).
  split; [| split; [exact FV | split; [| split; [exact A |]]]].
  - apply nth_ext with (d := 0) (d' := 0).
    + rewrite length_map, length_seq. exact Lf.
    + intros t T. rewrite Lf in T. rewrite nth_map_seq by exact T.
      apply F. exact T.
  - intros L. rewrite F by lia. simpl. ring.
  - apply nth_ext with (d := 0) (d' := 0).
    + congruence.
    + intros t T. rewrite La in T. rewrite A by exact T.
      rewrite Forall_forall in ONES.
      rewrite (ONES (nth t portions 0)) by (apply nth_In; exact T). ring.
Qed.

Lemma projections_geometric_witness :
  Forall (fun p : Qc => p = 1) [1; 1; 1] /\
  snd (_compute_projections (Py.of_int 86900) (Q2Qc (28 # 1000)) [1; 1; 1])
  = map (fun t => Py.of_int 86900 * (1 + Q2Qc (28 # 1000)) ^ t) (seq 0 3).
Proof.
  assert (ONES : Forall (fun p : Qc => p = 1) [1; 1; 1])
    by (repeat constructor).
  split; [exact ONES |].
  exact (proj1 (projections_geometric (Py.of_int 86900) (Q2Qc (28 # 1000))
                  [1; 1; 1] ONES)).
Defined.

(** ** The orchestrator *)

Lemma bind_inr {A B : Type} (m : result A) (k : A -> result B) (b : B) :
  bind m k = inr b -> exists a, m = inr a /\ k a = inr b.
Proof. destruct m as [e | a]; simpl; [discriminate | eauto]. Qed.

Lemma require_inr {A : Type} (msg : string) (field : option A) (v : A) :
  require msg field = inr v -> field = Some v.
Proof.
  destruct field; simpl; [intros [= ->]; reflexivity | discriminate].
Qed.

Lemma strptime_inr (d d' : date) : Calendar.strptime d = inr d' -> d' = d.
Proof.
  unfold Calendar.strptime.
  match goal with
  | |- context [if ?b then _ else _] => destruct b
  end; [intros [= ->]; reflexivity | discriminate].
Qed.

(** Peels one successful stage off a run. *)
Ltac stage H x E :=
  apply bind_inr in H; destruct H as (x & E & H).

(** What a run that returns has computed, stage by stage. *)
Lemma run_case_inv (env : Env) (config : Config) (r : CaseResult) :
  run_case env config = inr r ->
  exists s b d base le lf wage avg ddf pdf total,
    sex (person config) = Some s /\
    dob (person config) = Some b /\
    dod (person config) = Some d /\
    base_salary_usd (occupation config) = Some base /\
    let age := age_at_death b d in
    let wl :=
      _compute_worklife_expectancy age (hint_of config)
        (get_default (active_status (person config)) "active"%string)
        (get_default (education_level (person config)) "Other"%string)
        (assumption config worklife_table_override) in
    let g := get_default (assumption config annual_growth_rate_override)
               default_growth_rate in
    let dr := get_default (assumption config discount_rate_override)
                default_discount_rate in
    let pj := fst (_compute_projections base g (snd wl)) in
    _compute_life_expectancy env age s
      (assumption config life_expectancy_override_years) = inr (le, lf) /\
    _compute_wage_growth_series base g 7 = inr (wage, avg) /\
    _compute_discount_factors dr (List.length (snd wl)) = inr ddf /\
    _compute_present_values (ActualValue pj) (DiscountFactor ddf) = inr pdf /\
    iloc_last (CumulativePV pdf) = inr total /\
    r = mkCaseResult (case_id config)
          (mkSummary le (fst wl) (avg * Py.of_int 100) (dr * Py.of_int 100)
             total)
          lf (snd wl) wage avg pj ddf pdf.
Proof.
  unfold run_case. intros H.
  stage H fn Efn. stage H ln Eln. stage H s Es. stage H b Eb. stage H d Ed.
  stage H soc Esoc. stage H ti Eti. stage H co Eco. stage H st Est.
  stage H base Ebase.
  apply require_inr in Es, Eb, Ed, Ebase.
  stage H b' Eb'. apply strptime_inr in Eb'. subst b'.
  stage H d' Ed'. apply strptime_inr in Ed'. subst d'.
  apply bind_inr in H. destruct H as ([le lf] & EL & H).
  fold (hint_of config) in H. fold (age_at_death b d) in H, EL.
  destruct (_compute_worklife_expectancy (age_at_death b d) (hint_of config)
              (get_default (active_status (person config)) "active"%string)
              (get_default (education_level (person config)) "Other"%string)
              (assumption config worklife_table_override))
    as [wle portions] eqn:EW.
  apply bind_inr in H. destruct H as ([wage avg] & EG & H).
  destruct (_compute_projections base
              (get_default (assumption config annual_growth_rate_override)
                 default_growth_rate) portions) as [pj full] eqn:EP.
  stage H ddf ED. stage H pdf EV. stage H total ET. stage H memo EM.
  injection H as <-.
  exists s, b, d, base, le, lf, wage, avg, ddf, pdf, total.
  cbv zeta. rewrite EW. cbn [fst snd]. rewrite EP. cbn [fst snd].
  assert (LP : List.length (proj_YearIndex pj) = List.length portions).
  { pose proof (projections_spec base
                  (get_default (assumption config annual_growth_rate_override)
                     default_growth_rate) portions) as PS.
    cbv zeta in PS. rewrite EP in PS. cbn [fst snd] in PS.
    destruct PS as (_ & _ & YI & _). rewrite YI. apply length_seq. }
  rewrite LP in ED.
  repeat split; assumption || reflexivity.
Qed.

Lemma worklife_zero (age hint : Qc) (act edu : string) :
  hint <= age ->
  _compute_worklife_expectancy age hint act edu None = (0, []).
Proof.
  intros H. unfold _compute_worklife_expectancy.
  assert (L : hint - age <= 0) by (to_Q; lra).
  rewrite (proj2 (max_zero_spec _) L). reflexivity.
Qed.

(** C1, on the code.  With no work-life override and a retirement hint not
    above the age at death, the work-life timeline is empty, so are the
    projection, discount and present-value tables, and [run_case] returns
    nothing: taking the last cumulative value of the empty table raises. *)
Theorem zero_horizon_no_result (env : Env) (c : Config) (b d : date) :
  dob (person c) = Some b ->
  dod (person c) = Some d ->
  assumption c worklife_table_override = None ->
  hint_of c <= age_at_death b d ->
  _compute_worklife_expectancy (age_at_death b d) (hint_of c)
    (get_default (active_status (person c)) "active"%string)
    (get_default (education_level (person c)) "Other"%string) None = (0, []) /\
  (forall base g, fst (_compute_projections base g [])
                  = mkProjectionFrame [] [] [] []) /\
  (forall rate, _compute_discount_factors rate 0 = inr (mkDiscountFrame [] [])) /\
  (forall fs, _compute_present_values [] fs
              = inr (mkPresentValueFrame [] [] [])) /\
  iloc_last [] = inl IndexError /\
  forall r, run_case env c <> inr r.
Proof.
  intros Hb Hd Hov Hh.
  pose proof (worklife_zero (age_at_death b d) (hint_of c)
                (get_default (active_status (person c)) "active"%string)
                (get_default (education_level (person c)) "Other"%string) Hh)
    as WZ.
  split; [exact WZ |]. do 4 (split; [reflexivity |]).
  intros r H. apply run_case_inv in H.
  destruct H as (s & b' & d' & base & le & lf & wage & avg & ddf & pdf & total
                 & _ & Eb & Ed & _ & H).
  rewrite Hb in Eb. injection Eb as <-. rewrite Hd in Ed. injection Ed as <-.
  cbv zeta in H. rewrite Hov, WZ in H. cbn [fst snd] in H.
  destruct H as (_ & _ & _ & EV & ET & _).
  change (ActualValue (fst (_compute_projections base
            (get_default (assumption c annual_growth_rate_override)
               default_growth_rate) []))) with (@nil Qc) in EV.
  change (_compute_present_values [] (DiscountFactor ddf))
    with (@inr exn _ (mkPresentValueFrame [] [] [])) in EV.
  injection EV as <-. discriminate ET.
Qed.

Lemma zero_horizon_no_result_witness :
  hint_of case_past_retirement
    <= age_at_death (mkDate 1950 1 1) (mkDate 2025 1 1) /\
  forall r, run_case env_with_table case_past_retirement <> inr r.
Proof.
  assert (H : hint_of case_past_retirement
              <= age_at_death (mkDate 1950 1 1) (mkDate 2025 1 1))
    by discriminate.
  split; [exact H |].
  exact (proj2 (proj2 (proj2 (proj2 (proj2
    (zero_horizon_no_result env_with_table case_past_retirement
       (mkDate 1950 1 1) (mkDate 2025 1 1) eq_refl eq_refl eq_refl H)))))).
Defined.

(** The run for a decedent of about 75 years with a retirement hint of 65,
    and the run at the boundary (born and dead the same day, hint 0): both
    end in [IndexError]. *)
Lemma past_retirement_raises :
  run_case env_with_table case_past_retirement = inl IndexError /\
  run_case env_with_table
    (mkConfig "case_006" (john_doe (mkDate 2025 1 1) (mkDate 2025 1 1))
       (sales_manager (Py.of_int 86900))
       (Some (mkAssumptions (Some 0) (Some (Py.of_int 12)) None None None)))
  = inl IndexError.
Proof. split; vm_compute; reflexivity. Qed.

(** C10.  Two configurations that differ only in the person's sex,
    education level or activity status give the same run: the same error,
    or the same summary and the same tables. *)
Theorem demographics_irrelevant (c1 c2 : Config) :
  same_but_demographics c1 c2 ->
  forall env, run_case env c1 = run_case env c2.
Proof.
  destruct c1 as [id1 [f1 l1 s1 b1 d1 e1 a1] o1 as1].
  destruct c2 as [id2 [f2 l2 s2 b2 d2 e2 a2] o2 as2].
  unfold same_but_demographics. cbn.
  intros (-> & -> & -> & -> & -> & -> & -> & S1 & S2) env.
  destruct s1 as [s1 |]; [| contradiction].
  destruct s2 as [s2 |]; [| contradiction].
  unfold run_case. cbn [person occupation case_id first_name last_name sex dob
    dod education_level active_status].
  repeat match goal with
  | |- bind (require ?msg ?f) _ = bind (require ?msg ?f) _ =>
      destruct f; cbn [bind require ret raise]; [| reflexivity]
  end.
  reflexivity.
Qed.

Lemma demographics_irrelevant_witness :
  same_but_demographics case_001 case_001_other_demographics /\
  run_case env_with_table case_001
  = run_case env_with_table case_001_other_demographics.
Proof.
  assert (S : same_but_demographics case_001 case_001_other_demographics).
  { unfold same_but_demographics. cbn.
    repeat split; reflexivity || discriminate. }
  split; [exact S | exact (demographics_irrelevant _ _ S env_with_table)].
Defined.


Lemma run_case_hint (env : Env) (c : Config) (r : CaseResult) :
  run_case env c = inr r ->
  exists h, assumption c retirement_age_hint = Some h.
Proof.
  unfold run_case. intros H.
  repeat match type of H with
  | bind ?m _ = inr _ =>
      let x := fresh "x" in let E := fresh "E" in
      apply bind_inr in H; destruct H as (x & E & H)
  | (let '(_, _) := ?p in _) = inr _ => destruct p
  end.
  match goal with
  | E : _create_pdf_memo _ _ = inr _ |- _ =>
      unfold _create_pdf_memo in E; unfold assumption
  end.
  destruct (assumptions c) as [a |]; [| discriminate].
  destruct (retirement_age_hint a) as [h |]; [| discriminate].
  exists h. reflexivity.
Qed.






(** * Further properties *)

(** ** Validation *)

(** X1.  When a required key is missing, the run raises [ValueError] with
    the complaint about the first missing key -- person keys before
    occupation keys, in the order the source lists them -- whatever the
    disk, the dates and the assumptions hold. *)
Theorem validation_reports_first_missing (env : Env) (c : Config)
    (msg : string) (rest : list string) :
  missing_required c = msg :: rest ->
  run_case env c = inl (ValueError msg).
Proof.
  unfold missing_required, run_case.
  repeat match goal with
  | |- absent ?m ?f ++ _ = _ -> _ =>
      destruct f; cbn [absent app bind require ret raise];
      [| intros [= <- _]; reflexivity]
  | |- absent ?m ?f = _ -> _ =>
      destruct f; cbn [absent app bind require ret raise];
      [| intros [= <- _]; reflexivity]
  end.
  discriminate.
Qed.

Lemma validation_reports_first_missing_witness :
  missing_required case_missing_sex
  = ["Missing required person field: sex"%string;
     "Missing required occupation field: county"%string] /\
  run_case env_with_table case_missing_sex
  = inl (ValueError "Missing required person field: sex").
Proof.
  split; [reflexivity |].
  exact (validation_reports_first_missing env_with_table case_missing_sex
           _ _ eq_refl).
Defined.

(** The ten required keys of a configuration that passes validation. *)
Lemma missing_required_nil (c : Config) :
  missing_required c = [] ->
  exists fn ln s b d soc ti co st base,
    person c = mkPerson (Some fn) (Some ln) (Some s) (Some b) (Some d)
                 (education_level (person c)) (active_status (person c)) /\
    occupation c = mkOccupation (Some soc) (Some ti) (Some co) (Some st)
                     (Some base).
Proof.
  unfold missing_required.
  destruct (person c) as [[fn |] [ln |] [s |] [b |] [d |] e a];
    cbn; try discriminate.
  destruct (occupation c) as [[soc |] [ti |] [co |] [st |] [base |]];
    cbn; try discriminate.
  intros _. exists fn, ln, s, b, d, soc, ti, co, st, base.
  split; reflexivity.
Qed.

(** X2.  Two configurations that differ only in the person's names and in
    the code, title, county and state of the occupation give the same run. *)
Theorem labels_irrelevant (c1 c2 : Config) :
  same_but_labels c1 c2 ->
  forall env, run_case env c1 = run_case env c2.
Proof.
  intros (Hid & Hs & Hb & Hd & He & Ha & Hbase & Has & M1 & M2) env.
  destruct (missing_required_nil c1 M1)
    as (fn & ln & s & b & d & soc & ti & co & st & base & P1 & O1).
  destruct (missing_required_nil c2 M2)
    as (fn' & ln' & s' & b' & d' & soc' & ti' & co' & st' & base' & P2 & O2).
  destruct c1 as [id1 p1 o1 as1], c2 as [id2 p2 o2 as2].
  cbn [person occupation case_id assumptions] in *.
  subst id2 as2. rewrite P1, P2, O1, O2 in *.
  cbn [sex dob dod education_level active_status base_salary_usd] in *.
  rewrite He, Ha in *.
  injection Hs as <-. injection Hb as <-. injection Hd as <-.
  injection Hbase as <-.
  reflexivity.
Qed.

Lemma labels_irrelevant_witness :
  same_but_labels case_overridden case_overridden_relabelled /\
  run_case env_without_table case_overridden
  = run_case env_without_table case_overridden_relabelled.
Proof.
  assert (S : same_but_labels case_overridden case_overridden_relabelled).
  { unfold same_but_labels. cbn. repeat split; reflexivity. }
  split; [exact S | exact (labels_irrelevant _ _ S env_without_table)].
Defined.

(** ** Timelines and the two estimators *)

Lemma sum_snoc (l : list Qc) (x : Qc) : Py.sum (l ++ [x]) = Py.sum l + x.
Proof. unfold Py.sum. rewrite fold_left_app. reflexivity. Qed.

Lemma produced_build (years : Qc) (fr : list Qc) :
  produced years fr ->
  fr = if Py.ltb epsilon (frac_part years)
       then Py.replicate 1 (Py.floor years) ++ [frac_part years]
       else Py.replicate 1 (Py.floor years).
Proof.
  intros [env age sex ov H | age hint act edu ov H].
  - unfold _compute_life_expectancy in H.
    match type of H with
    | bind ?m _ = _ => destruct m as [e | le]; simpl in H
    end.
    + discriminate.
    + unfold ret in H. injection H as <- <-. reflexivity.
  - unfold _compute_worklife_expectancy in H.
    injection H as <- <-. reflexivity.
Qed.

Lemma years_split (years : Qc) :
  years = Py.of_int (Py.floor years) + frac_part years.
Proof. unfold frac_part. ring. Qed.

Lemma sum_whole_years (years : Qc) :
  0 <= years ->
  Py.sum (Py.replicate 1 (Py.floor years)) = Py.of_int (Py.floor years).
Proof.
  intros P. unfold Py.replicate. rewrite sum_repeat.
  rewrite Z2Nat.id by (apply floor_nonneg; exact P). ring.
Qed.

(** X3.  The timeline accounts for the remaining years: for a value of at
    least 0 returned by either estimator, the entries add up to at most that
    value and fall short of it by at most 1e-6 -- by nothing when the
    fractional part is 0 or exceeds 1e-6. *)
Theorem timeline_adds_up (years : Qc) (fr : list Qc) :
  produced years fr -> 0 <= years ->
  Py.sum fr <= years /\
  years <= Py.sum fr + epsilon /\
  (frac_part years = 0 \/ epsilon < frac_part years -> Py.sum fr = years).
Proof.
  intros P N. rewrite (produced_build _ _ P).
  destruct (frac_part_range years) as [F0 F1].
  pose proof (sum_whole_years years N) as W.
  pose proof (years_split years) as Y.
  destruct (Py.ltb epsilon (frac_part years)) eqn:E.
  - rewrite sum_snoc, W, <- Y. repeat split.
    + apply Qcle_refl.
    + apply le_plus_nonneg. discriminate.
  - apply ltb_ge in E. rewrite W. repeat split.
    + rewrite Y at 2. apply le_plus_nonneg. exact F0.
    + rewrite Y at 1. apply Qcplus_le_compat; [apply Qcle_refl | exact E].
    + intros [Z | L].
      * rewrite Y at 2. rewrite Z. ring.
      * exfalso. exact (Qcle_not_lt _ _ E L).
Qed.

Lemma timeline_adds_up_witness :
  0 <= Q2Qc (41 # 2) /\
  Py.sum (repeat 1 20%nat ++ [Q2Qc (1 # 2)]) = Q2Qc (41 # 2).
Proof.
  split; [discriminate |].
  assert (P : produced (Q2Qc (41 # 2)) (repeat 1 20%nat ++ [Q2Qc (1 # 2)])).
  { apply produced_worklife
      with (age := Py.of_int 45) (hint := Q2Qc (131 # 2))
           (act := "active"%string) (edu := "BA"%string) (ov := None).
    reflexivity. }
  apply (timeline_adds_up _ _ P); [discriminate | right; reflexivity].
Defined.

Lemma floor_negative (x : Qc) : x < 0 -> (Py.floor x < 0)%Z.
Proof.
  intros H. unfold Py.floor. pose proof (Qfloor_le (this x)) as L.
  unfold Qclt in H. change (this 0) with (inject_Z 0) in H.
  rewrite Zlt_Qlt. lra.
Qed.

(** X4.  A negative remaining-years value (only an override can be one)
    gets no whole-year entry: its timeline is empty, or holds the single
    fractional part [years - floor(years)]. *)
Theorem negative_years_timeline (years : Qc) (fr : list Qc) :
  produced years fr -> years < 0 ->
  (fr = [] /\ frac_part years <= epsilon) \/
  (fr = [frac_part years] /\ epsilon < frac_part years).
Proof.
  intros P N. rewrite (produced_build _ _ P).
  pose proof (floor_negative years N) as F.
  unfold Py.replicate. replace (Z.to_nat (Py.floor years)) with 0%nat by lia.
  destruct (Py.ltb epsilon (frac_part years)) eqn:E.
  - right. split; [reflexivity | apply ltb_lt; exact E].
  - left. split; [reflexivity | apply ltb_ge; exact E].
Qed.

Lemma negative_years_timeline_witness :
  Q2Qc (-1 # 2) < 0 /\
  snd (_compute_worklife_expectancy 0 0 "active" "Other" (Some (Q2Qc (-1 # 2))))
  = [Q2Qc (1 # 2)].
Proof.
  split; [reflexivity |].
  assert (P : produced (Q2Qc (-1 # 2)) [Q2Qc (1 # 2)]).
  { apply produced_worklife
      with (age := 0) (hint := 0) (act := "active"%string)
           (edu := "Other"%string) (ov := Some (Q2Qc (-1 # 2))).
    reflexivity. }
  destruct (negative_years_timeline _ _ P eq_refl) as [[E _] | [E _]];
    [discriminate E | reflexivity].
Defined.

(** X5.  Without an override the work-life proxy is never negative: it is
    [hint - age] when the hint is at least the age, and 0 with an empty
    timeline otherwise; the activity status and education level play no
    part. *)
Theorem worklife_proxy (age hint : Qc) (act edu act' edu' : string) :
  let wle := fst (_compute_worklife_expectancy age hint act edu None) in
  let portions := snd (_compute_worklife_expectancy age hint act edu None) in
  0 <= wle /\
  (age <= hint -> wle = hint - age) /\
  (hint <= age -> wle = 0 /\ portions = []) /\
  _compute_worklife_expectancy age hint act' edu' None = (wle, portions).
Proof.
  cbv zeta. unfold _compute_worklife_expectancy. cbn [fst snd].
  destruct (max_zero_spec (hint - age)) as [M1 M2].
  assert (D : hint <= age -> hint - age <= 0) by (intros H; to_Q; lra).
  split; [| split; [| split; [| reflexivity]]].
  - destruct (Qclt_le_dec 0 (hint - age)) as [L | L].
    + rewrite (M1 L). apply Qclt_le_weak. exact L.
    + rewrite (M2 L). apply Qcle_refl.
  - intros H. destruct (Qclt_le_dec 0 (hint - age)) as [L | L].
    + apply M1. exact L.
    + rewrite (M2 L). apply Qcle_antisym; [| exact L]. to_Q. lra.
  - intros H. rewrite (M2 (D H)). split; reflexivity.
Qed.

(** ** Interpolation in the life table *)

Lemma interpolate_between (e e' frac : Qc) :
  e' <= e -> 0 <= frac -> frac < 1 ->
  e' <= e - frac * (e - e') /\ e - frac * (e - e') <= e.
Proof.
  intros D F0 F1. unfold Qcle, Qclt in *.
  rewrite this_minus, this_mult, this_minus.
  change (this 0) with 0%Q in *. change (this 1) with 1%Q in *.
  generalize dependent (this frac). generalize dependent (this e').
  generalize (this e). intros a b D f F0 F1. split; nra.
Qed.

(** X6.  Where the table has rows for the floored age and for the next age
    and does not increase between them, the interpolated life expectancy
    lies between the two table values, and it is the floor-age value itself
    at an integer age. *)
Theorem interpolation_within_rows (env : Env) (table : LifeTable)
    (age : Qc) (sex : string) (e e' : Qc) :
  table_file env = Some table ->
  ex_at table (Py.floor age) = Some e ->
  ex_at table (Py.floor age + 1) = Some e' ->
  e' <= e ->
  exists le fr,
    _compute_life_expectancy env age sex None = inr (le, fr) /\
    e' <= le /\ le <= e /\
    (frac_part age = 0 -> le = e).
Proof.
  intros T E0 E1 D. unfold _compute_life_expectancy, _load_life_table.
  rewrite T. cbn [bind ret].
  pose proof (rows_at_ex_at table (Py.floor age)) as R0.
  pose proof (rows_at_ex_at table (Py.floor age + 1)) as R1.
  destruct (rows_at table (Py.floor age)) as [| r0 t0];
    [rewrite E0 in R0; discriminate |].
  destruct (rows_at table (Py.floor age + 1)) as [| r1 t1];
    [rewrite E1 in R1; discriminate |].
  rewrite E0 in R0. injection R0 as ->. rewrite E1 in R1. injection R1 as ->.
  cbn [bind ret]. eexists _, _. split; [reflexivity |].
  fold (frac_part age).
  destruct (frac_part_range age) as [F0 F1].
  destruct (interpolate_between (ex r0) (ex r1) (frac_part age) D F0 F1)
    as [Lo Hi].
  split; [exact Lo | split; [exact Hi |]].
  intros Z. rewrite Z. ring.
Qed.

Lemma interpolation_within_rows_witness :
  Q2Qc (343 # 10) <= Q2Qc (352 # 10) /\
  exists le fr,
    _compute_life_expectancy env_with_table (Q2Qc (91 # 2)) "male" None
      = inr (le, fr) /\
    Q2Qc (343 # 10) <= le /\ le <= Q2Qc (352 # 10).
Proof.
  assert (D : Q2Qc (343 # 10) <= Q2Qc (352 # 10)) by discriminate.
  split; [exact D |].
  destruct (interpolation_within_rows env_with_table table_excerpt
              (Q2Qc (91 # 2)) "male" (Q2Qc (352 # 10)) (Q2Qc (343 # 10))
              eq_refl eq_refl eq_refl D) as (le & fr & E & Lo & Hi & _).
  exists le, fr. split; [exact E | split; [exact Lo | exact Hi]].
Defined.

(** ** The wage history in closed form *)

(** X7.  For a growth rate other than -1 and a window of at least one
    year, the reconstructed history has one wage per year, the wage of year
    [i] is the base salary divided by [(1 + g)] once per year back, the last
    wage is the base salary itself, and projecting the oldest wage forward
    at the same rate over full years gives the history back. *)
Theorem wage_history_closed_form (base g : Qc) (years : nat) :
  g <> - (1) -> (1 <= years)%nat ->
  exists df avg,
    _compute_wage_growth_series base g years = inr (df, avg) /\
    List.length (MeanWage df) = years /\
    (forall i, (i < years)%nat ->
       nth i (MeanWage df) 0 = base / (1 + g) ^ (years - 1 - i)) /\
    last (MeanWage df) 0 = base /\
    snd (_compute_projections (nth 0 (MeanWage df) 0) g (repeat 1 years))
    = MeanWage df.
Proof.
  intros R Y.
  assert (G : 1 + g <> 0).
  { intros Z. apply R. replace g with (1 + g - 1) by ring. rewrite Z. ring. }
  destruct (wage_growth_series_runs base g years G Y)
    as (df & avg & E & W & _).
  exists df, avg. split; [exact E |].
  assert (L : List.length (MeanWage df) = years)
    by (rewrite W, length_map, length_seq; reflexivity).
  assert (N : forall i, (i < years)%nat ->
            nth i (MeanWage df) 0 = base / (1 + g) ^ (years - 1 - i)).
  { intros i I. rewrite W. apply nth_map_seq. exact I. }
  split; [exact L | split; [exact N | split]].
  - rewrite last_nth, L, N by lia.
    replace (years - 1 - (years - 1))%nat with 0%nat by lia. simpl. field.
    discriminate.
  - destruct (projections_spec (nth 0 (MeanWage df) 0) g (repeat 1 years))
      as (_ & _ & _ & Lf & _ & F & _).
    rewrite repeat_length in Lf, F.
    apply nth_ext with (d := 0) (d' := 0); [congruence |].
    intros t T. rewrite Lf in T. rewrite F, !N by lia.
    replace (years - 1 - 0)%nat with (t + (years - 1 - t))%nat by lia.
    rewrite pow_add. field.
    split; apply pow_nonzero; exact G.
Qed.

Lemma wage_history_closed_form_witness :
  Q2Qc (28 # 1000) <> - (1) /\
  exists df avg,
    _compute_wage_growth_series (Py.of_int 86900) (Q2Qc (28 # 1000)) 7
    = inr (df, avg) /\
    last (MeanWage df) 0 = Py.of_int 86900.
Proof.
  assert (R : Q2Qc (28 # 1000) <> - (1)) by discriminate.
  split; [exact R |].
  destruct (wage_history_closed_form (Py.of_int 86900) (Q2Qc (28 # 1000)) 7 R)
    as (df & avg & E & _ & _ & La & _); [lia |].
  exists df, avg. split; [exact E | exact La].
Defined.

Lemma yoy_of_zeros (n : nat) : yoy_of (repeat 0 n) = repeat 0 (n - 1).
Proof.
  induction n as [| [| n] IH]; trivial.
  change (yoy_of (repeat 0 (S (S n))))
    with ((if Py.truthy 0 then (0 - 0) / 0 else 0) :: yoy_of (repeat 0 (S n))).
  rewrite IH. simpl. rewrite Nat.sub_0_r. reflexivity.
Qed.

Lemma map_seq_const (f : nat -> Qc) (c : Qc) (s n : nat) :
  (forall i, f i = c) -> map f (seq s n) = repeat c n.
Proof.
  intros H. revert s. induction n as [| n IH]; intros s; simpl; trivial.
  rewrite H, IH. reflexivity.
Qed.

(** X8.  A base salary of 0 is absorbed by the guard on the prior-year
    wage: for a rate other than -1 the history is flat at 0, every reported
    growth is 0 and so is the mean, whatever the rate. *)
Theorem zero_salary_history (g : Qc) (years : nat) :
  g <> - (1) -> (1 <= years)%nat ->
  exists df,
    _compute_wage_growth_series 0 g years = inr (df, 0) /\
    MeanWage df = repeat 0 years /\
    YoYGrowth df = None :: repeat (Some 0) (years - 1).
Proof.
  intros R Y.
  assert (G : 1 + g <> 0).
  { intros Z. apply R. replace g with (1 + g - 1) by ring. rewrite Z. ring. }
  destruct (wage_growth_series_runs 0 g years G Y)
    as (df & avg & E & W & _ & YY & A).
  assert (W0 : MeanWage df = repeat 0 years).
  { rewrite W. apply map_seq_const. intros i. field.
    apply pow_nonzero. exact G. }
  rewrite W0, yoy_of_zeros in YY, A.
  assert (A0 : avg = 0).
  { clear E. rewrite A. destruct (years - 1)%nat as [| k]; [reflexivity |].
    change (repeat 0 (S k)) with (0 :: repeat 0 k) at 1.
    cbv iota. rewrite sum_repeat, repeat_length. field.
    apply of_int_nat_pos. }
  clear A. rewrite A0 in E. exists df. split; [exact E | split; [exact W0 |]].
  rewrite YY, map_repeat. reflexivity.
Qed.

Lemma zero_salary_history_witness :
  Q2Qc (4 # 100) <> - (1) /\
  exists df, _compute_wage_growth_series 0 (Q2Qc (4 # 100)) 7 = inr (df, 0).
Proof.
  assert (R : Q2Qc (4 # 100) <> - (1)) by discriminate.
  split; [exact R |].
  destruct (zero_salary_history (Q2Qc (4 # 100)) 7 R) as (df & E & _); [lia |].
  exists df. exact E.
Defined.

(** X9.  For a window of at least one year the reconstruction fails in one
    case only: at the growth rate -1, where dividing the salary by
    [1 + rate] raises [ZeroDivisionError], whatever the salary. *)
Theorem wage_history_fails_only_at_minus_one (base g : Qc) (years : nat)
    (e : exn) :
  (1 <= years)%nat ->
  (_compute_wage_growth_series base g years = inl e
   <-> g = - (1) /\ e = ZeroDivisionError).
Proof.
  intros Y. split.
  - intros H. destruct (Qc_eq_dec (1 + g) 0) as [Z | G].
    + destruct years as [| k]; [lia |].
      rewrite (wage_growth_zero_divisor base g k Z) in H.
      injection H as <-. split; [| reflexivity].
      replace g with (1 + g - 1) by ring. rewrite Z. ring.
    + destruct (wage_growth_series_runs base g years G Y)
        as (df & avg & E & _).
      rewrite E in H. discriminate.
  - intros [-> ->]. destruct years as [| k]; [lia |].
    apply wage_growth_zero_divisor. ring.
Qed.

Lemma wage_history_fails_only_at_minus_one_witness :
  (1 <= 7)%nat /\
  _compute_wage_growth_series (Py.of_int 86900) (- (1)) 7
  = inl ZeroDivisionError.
Proof.
  split; [lia |].
  apply (wage_history_fails_only_at_minus_one (Py.of_int 86900) (- (1)) 7
           ZeroDivisionError); [lia | split; reflexivity].
Defined.

(** ** Discount factors: failure and negative rates *)

(** X10.  At the rate -1 the discounter raises exactly for a horizon of
    two years or more, and then [ZeroDivisionError]: the second factor
    divides by [0.0 ** 1].  A horizon of 0 or 1 never fails, whatever the
    rate, also at -1 where [0.0 ** 0] is 1.0: it gives no factor, and the
    single factor 1. *)
Theorem discounter_at_minus_one (rate : Qc) (n : nat) (e : exn) :
  (_compute_discount_factors (- (1)) n = inl e
   <-> (2 <= n)%nat /\ e = ZeroDivisionError) /\
  _compute_discount_factors rate 0 = inr (mkDiscountFrame [] []) /\
  _compute_discount_factors rate 1 = inr (mkDiscountFrame [0%nat] [1]).
Proof.
  split; [| split; reflexivity].
  unfold _compute_discount_factors, Py.range. split.
  - intros H. destruct n as [| [| k]].
    + discriminate H.
    + rewrite factors_of_single in H. discriminate H.
    + rewrite factors_of_minus_one in H by ring. injection H as <-.
      split; [lia | reflexivity].
  - intros [N ->]. destruct n as [| [| k]]; try lia.
    rewrite factors_of_minus_one by ring. reflexivity.
Qed.

Lemma minus_one_lt_pos (r : Qc) : - (1) < r -> 0 < 1 + r.
Proof.
  unfold Qclt. rewrite this_plus.
  change (this (- (1))) with (-1 # 1)%Q.
  change (this 0) with 0%Q. change (this 1) with 1%Q. intros H. lra.
Qed.

Lemma factor_positive (r : Qc) (t : nat) :
  - (1) < r -> 0 < 1 / (1 + r) ^ t.
Proof.
  intros R. unfold Qcdiv. rewrite Qcmult_1_l. apply inv_pos.
  apply (pow_pos _ t (minus_one_lt_pos r R)).
Qed.

Lemma factor_recurrence (r : Qc) (t : nat) :
  1 + r <> 0 -> 1 / (1 + r) ^ S t * (1 + r) = 1 / (1 + r) ^ t.
Proof.
  intros G. simpl. field. split; [apply (pow_nonzero _ t G) | exact G].
Qed.

Lemma factor_step_up (r : Qc) (t : nat) :
  - (1) < r -> r <= 0 -> 1 / (1 + r) ^ t <= 1 / (1 + r) ^ S t.
Proof.
  intros R N. pose proof (minus_one_lt_pos r R) as P.
  rewrite <- (factor_recurrence r t (pos_nonzero _ P)).
  rewrite <- (Qcmult_1_r (1 / (1 + r) ^ S t)) at 2.
  rewrite (Qcmult_comm (1 / (1 + r) ^ S t) (1 + r)).
  rewrite (Qcmult_comm (1 / (1 + r) ^ S t) 1).
  apply Qcmult_le_compat_r.
  - to_Q. lra.
  - apply Qclt_le_weak. apply factor_positive. exact R.
Qed.

Lemma factor_at_least_one (r : Qc) (t : nat) :
  - (1) < r -> r <= 0 -> 1 <= 1 / (1 + r) ^ t.
Proof.
  intros R N. induction t as [| t IH].
  - discriminate.
  - apply Qcle_trans with (1 / (1 + r) ^ t);
      [exact IH | apply factor_step_up; assumption].
Qed.

(** X11.  For a discount rate above -1 every factor is positive and each
    factor times [1 + rate] is the one before it; for a rate in (-1, 0] the
    factors never decrease and none is below 1. *)
Theorem discount_factors_above_minus_one (rate : Qc) (n : nat) :
  - (1) < rate ->
  exists df,
    _compute_discount_factors rate n = inr df /\
    (forall t, (t < n)%nat -> 0 < nth t (DiscountFactor df) 0) /\
    (forall t, (S t < n)%nat ->
       nth (S t) (DiscountFactor df) 0 * (1 + rate)
       = nth t (DiscountFactor df) 0) /\
    (rate <= 0 ->
     (forall t, (S t < n)%nat ->
        nth t (DiscountFactor df) 0 <= nth (S t) (DiscountFactor df) 0) /\
     (forall t, (t < n)%nat -> 1 <= nth t (DiscountFactor df) 0)).
Proof.
  intros R. pose proof (pos_nonzero _ (minus_one_lt_pos rate R)) as G.
  unfold _compute_discount_factors, Py.range.
  rewrite (factors_of_ok _ _ G). cbn [bind ret].
  eexists. split; [reflexivity |]. cbn [DiscountFactor].
  assert (NTH : forall t, (t < n)%nat ->
            nth t (map (fun t0 => 1 / Py.pow (1 + rate) t0) (seq 0 n)) 0
            = 1 / (1 + rate) ^ t).
  { intros t T. rewrite nth_map_seq by exact T. reflexivity. }
  split; [| split; [| intros N; split]].
  - intros t T. rewrite NTH by exact T. apply factor_positive. exact R.
  - intros t T. rewrite !NTH by lia. apply factor_recurrence. exact G.
  - intros t T. rewrite !NTH by lia. apply factor_step_up; assumption.
  - intros t T. rewrite NTH by exact T. apply factor_at_least_one; assumption.
Qed.

Lemma discount_factors_above_minus_one_witness :
  - (1) < Q2Qc (-1 # 2) /\
  exists df,
    _compute_discount_factors (Q2Qc (-1 # 2)) 3 = inr df /\
    nth 1 (DiscountFactor df) 0 <= nth 2 (DiscountFactor df) 0.
Proof.
  split; [reflexivity |].
  destruct (discount_factors_above_minus_one (Q2Qc (-1 # 2)) 3 eq_refl)
    as (df & E & _ & _ & M).
  exists df. split; [exact E |].
  apply (proj1 (M ltac:(discriminate))). lia.
Defined.

(** ** Present values: sequences of unequal length *)

Lemma getitem_out (xs : list Qc) (i : nat) :
  (List.length xs <= i)%nat -> getitem xs i = inl IndexError.
Proof.
  intros I. unfold getitem. apply nth_error_None in I. rewrite I. reflexivity.
Qed.

Lemma pv_from_short (factors : list Qc) :
  forall (todo : list Qc) (i : nat) (cum : Qc),
    (i <= List.length factors)%nat ->
    (List.length factors < i + List.length todo)%nat ->
    pv_from factors i cum todo = inl IndexError.
Proof.
  induction todo as [| a rest IH]; intros i cum B L; simpl in L.
  - lia.
  - cbn [pv_from].
    destruct (Nat.lt_ge_cases i (List.length factors)) as [I | I].
    + rewrite getitem_ok by exact I. cbn [bind].
      rewrite IH by lia. reflexivity.
    + rewrite getitem_out by exact I. reflexivity.
Qed.

Lemma pv_from_agree (factors factors' : list Qc) :
  forall (todo : list Qc) (i : nat) (cum : Qc),
    (forall j, (j < i + List.length todo)%nat ->
               nth_error factors j = nth_error factors' j) ->
    pv_from factors i cum todo = pv_from factors' i cum todo.
Proof.
  induction todo as [| a rest IH]; intros i cum H; trivial.
  cbn [pv_from]. unfold getitem. rewrite (H i) by (simpl; lia).
  destruct (nth_error factors' i) as [f |]; [| reflexivity].
  cbn [bind ret]. rewrite (IH (S i) (cum + a * f)); [reflexivity |].
  intros j J. apply H. simpl. lia.
Qed.

(** X12.  The aggregator fails in one case only: with fewer discount
    factors than earnings, where it raises [IndexError]. *)
Theorem aggregator_fails_only_when_short (actual_values discount_factors : list Qc)
    (e : exn) :
  _compute_present_values actual_values discount_factors = inl e
  <-> (List.length discount_factors < List.length actual_values)%nat
      /\ e = IndexError.
Proof.
  unfold _compute_present_values. split.
  - intros H.
    destruct (Nat.lt_ge_cases (List.length discount_factors)
                (List.length actual_values)) as [L | L].
    + rewrite pv_from_short in H by (simpl; lia).
      injection H as <-. split; [exact L | reflexivity].
    + destruct (pv_from_spec discount_factors actual_values 0 0)
        as (pv & cml & E & _); [simpl; lia |].
      rewrite E in H. discriminate H.
  - intros [L ->]. rewrite pv_from_short by (simpl; lia). reflexivity.
Qed.

(** X13.  Discount factors beyond the last year of earnings are ignored:
    with at least as many factors as earnings, the result is that for the
    factors cut to the length of the earnings. *)
Theorem aggregator_ignores_surplus (actual_values discount_factors : list Qc) :
  (List.length actual_values <= List.length discount_factors)%nat ->
  _compute_present_values actual_values discount_factors
  = _compute_present_values actual_values
      (firstn (List.length actual_values) discount_factors).
Proof.
  intros L. unfold _compute_present_values.
  rewrite (pv_from_agree discount_factors
             (firstn (List.length actual_values) discount_factors)
             actual_values 0 0); [reflexivity |].
  intros j J. simpl in J. rewrite nth_error_firstn.
  apply Nat.ltb_lt in J. rewrite J. reflexivity.
Qed.

Lemma aggregator_ignores_surplus_witness :
  (List.length [Py.of_int 100] <= List.length [1%Qc; Q2Qc (1 # 2)])%nat /\
  _compute_present_values [Py.of_int 100] [1; Q2Qc (1 # 2)]
  = _compute_present_values [Py.of_int 100] [1].
Proof.
  split; [simpl; lia |].
  apply (aggregator_ignores_surplus [Py.of_int 100] [1; Q2Qc (1 # 2)]).
  simpl. lia.
Defined.

(** ** Projection: bounds *)

(** X14.  For a base salary of at least 0, a growth rate of at least -1
    and portions in (0, 1], every full-year value is at least 0 and every
    fraction-adjusted value lies between 0 and the full-year value. *)
Theorem projection_bounds (base_salary r : Qc) (portions : list Qc) :
  0 <= base_salary -> - (1) <= r -> Forall unit_fraction portions ->
  let df := fst (_compute_projections base_salary r portions) in
  forall t, (t < List.length portions)%nat ->
    0 <= nth t (FullYearValue df) 0 /\
    0 <= nth t (ActualValue df) 0 /\
    nth t (ActualValue df) 0 <= nth t (FullYearValue df) 0.
Proof.
  intros B R U. cbv zeta. intros t T.
  destruct (projections_spec base_salary r portions)
    as (FV & _ & _ & _ & _ & F & A).
  rewrite FV, A, F by exact T.
  assert (G : 0 <= 1 + r).
  { unfold Qcle in *. rewrite this_plus.
    change (this (- (1))) with (-1 # 1)%Q in R.
    change (this 0) with 0%Q. change (this 1) with 1%Q. lra. }
  assert (V : 0 <= base_salary * (1 + r) ^ t).
  { apply mult_nonneg; [exact B | apply Qcpower_pos; exact G]. }
  rewrite Forall_forall in U.
  destruct (U (nth t portions 0)) as [P0 P1]; [apply nth_In; exact T |].
  split; [exact V | split].
  - apply mult_nonneg; [exact V | apply Qclt_le_weak; exact P0].
  - rewrite <- (Qcmult_1_r (base_salary * (1 + r) ^ t)) at 2.
    rewrite (Qcmult_comm _ (nth t portions 0)), (Qcmult_comm _ 1).
    apply Qcmult_le_compat_r; assumption.
Qed.

Lemma projection_bounds_witness :
  0 <= Py.of_int 86900 /\ - (1) <= Q2Qc (28 # 1000) /\
  nth 1 (ActualValue (fst (_compute_projections (Py.of_int 86900)
                             (Q2Qc (28 # 1000)) [1; Q2Qc (1 # 2)]))) 0
  <= nth 1 (FullYearValue (fst (_compute_projections (Py.of_int 86900)
                                  (Q2Qc (28 # 1000)) [1; Q2Qc (1 # 2)]))) 0.
Proof.
  split; [discriminate | split; [discriminate |]].
  assert (U : Forall unit_fraction [1; Q2Qc (1 # 2)]).
  { repeat constructor; discriminate. }
  apply (projection_bounds (Py.of_int 86900) (Q2Qc (28 # 1000))
           [1; Q2Qc (1 # 2)] ltac:(discriminate) ltac:(discriminate) U 1%nat).
  simpl. lia.
Defined.

(** ** When a run goes through *)

Lemma run_case_checks (env : Env) (c : Config) (r : CaseResult) :
  run_case env c = inr r ->
  missing_required c = [] /\
  forall b d, dob (person c) = Some b -> dod (person c) = Some d ->
    Calendar.strptime b = inr b /\ Calendar.strptime d = inr d.
Proof.
  unfold run_case. intros H.
  stage H fn Efn. stage H ln Eln. stage H s Es. stage H b Eb. stage H d Ed.
  stage H soc Esoc. stage H ti Eti. stage H co Eco. stage H st Est.
  stage H base Ebase.
  apply require_inr in Efn, Eln, Es, Eb, Ed, Esoc, Eti, Eco, Est, Ebase.
  stage H b' Eb'. pose proof (strptime_inr _ _ Eb') as Xb. subst b'.
  stage H d' Ed'. pose proof (strptime_inr _ _ Ed') as Xd. subst d'.
  split.
  - unfold missing_required.
    rewrite Efn, Eln, Es, Eb, Ed, Esoc, Eti, Eco, Est, Ebase. reflexivity.
  - intros b0 d0 B D. rewrite Eb in B. injection B as <-.
    rewrite Ed in D. injection D as <-. split; assumption.
Qed.

Lemma empty_timeline_no_result (env : Env) (c : Config) (b d : date) :
  dob (person c) = Some b -> dod (person c) = Some d ->
  portions_of c b d = [] ->
  forall r, run_case env c <> inr r.
Proof.
  intros Hb Hd HP r H. apply run_case_inv in H.
  destruct H as (s & b' & d' & base & le & lf & wage & avg & ddf & pdf & total
                 & _ & Eb & Ed & _ & H).
  rewrite Hb in Eb. injection Eb as <-. rewrite Hd in Ed. injection Ed as <-.
  cbv zeta in H. fold (portions_of c b d) in H. rewrite HP in H.
  destruct H as (_ & _ & _ & EV & ET & _).
  change (ActualValue (fst (_compute_projections base
            (get_default (assumption c annual_growth_rate_override)
               default_growth_rate) []))) with (@nil Qc) in EV.
  change (_compute_present_values [] (DiscountFactor ddf))
    with (@inr exn _ (mkPresentValueFrame [] [] [])) in EV.
  injection EV as <-. discriminate ET.
Qed.

Lemma life_stage_fails (env : Env) (age : Qc) (s : string) :
  table_file env = None ->
  exists e, _compute_life_expectancy env age s None = inl e.
Proof.
  intros T. unfold _compute_life_expectancy, _load_life_table. rewrite T.
  eexists. reflexivity.
Qed.

Lemma discount_inr (rate : Qc) (n : nat) (ddf : DiscountFrame) :
  _compute_discount_factors rate n = inr ddf ->
  (1 + rate <> 0 \/ (n <= 1)%nat) /\
  ddf = mkDiscountFrame (seq 0 n) (map (fun t => 1 / (1 + rate) ^ t) (seq 0 n)).
Proof.
  intros H.
  assert (C : 1 + rate <> 0 \/ (n <= 1)%nat).
  { destruct (Qc_eq_dec (1 + rate) 0) as [Z | G]; [| left; exact G].
    right. destruct n as [| [| k]]; try lia.
    unfold _compute_discount_factors, Py.range in H.
    rewrite (factors_of_minus_one rate k Z) in H. discriminate H. }
  split; [exact C |]. rewrite (discount_runs rate n C) in H.
  injection H as <-. reflexivity.
Qed.

Lemma last_cons (rest : list Qc) :
  forall x d, last (x :: rest) d = last rest x.
Proof.
  induction rest as [| y rest IH]; intros x d; trivial.
  change (last (x :: y :: rest) d) with (last (y :: rest) d).
  rewrite (IH y d), (IH y x). reflexivity.
Qed.

Lemma iloc_last_last (l : list Qc) :
  l <> [] -> iloc_last l = inr (last l 0).
Proof.
  destruct l as [| x rest]; [contradiction |]. intros _.
  unfold iloc_last, ret. rewrite last_cons. reflexivity.
Qed.

(** The aggregator on at least as many factors as earnings. *)
Lemma present_values_runs (actual factors : list Qc) :
  (List.length actual <= List.length factors)%nat ->
  exists df,
    _compute_present_values actual factors = inr df /\
    pv_YearIndex df = seq 0 (List.length actual) /\
    List.length (PresentValue df) = List.length actual /\
    List.length (CumulativePV df) = List.length actual /\
    (forall t, (t < List.length actual)%nat ->
       nth t (PresentValue df) 0 = nth t actual 0 * nth t factors 0) /\
    (actual <> [] ->
     iloc_last (CumulativePV df) = inr (Py.sum (PresentValue df))).
Proof.
  intros L. unfold _compute_present_values.
  destruct (pv_from_spec factors actual 0 0)
    as (pv & cml & E & Lp & Lc & P & C); [simpl; lia |].
  rewrite E. cbn [bind ret]. eexists. split; [reflexivity |].
  cbn [pv_YearIndex PresentValue CumulativePV].
  split; [reflexivity |]. split; [exact Lp |]. split; [exact Lc |].
  split; [exact P |].
  intros NE. rewrite iloc_last_last
    by (intros Z; rewrite Z in Lc; destruct actual; [contradiction | discriminate]).
  f_equal. rewrite last_nth, Lc.
  destruct actual as [| a rest]; [contradiction |]. cbn [List.length] in *.
  rewrite C by lia. replace (S (S (List.length rest) - 1)) with (List.length pv) by lia.
  rewrite firstn_all. ring.
Qed.

(** X15.  A run returns a result only if every required key is present,
    both dates are valid, a life-expectancy override or the table is there,
    the growth rate is not -1, the work-life timeline has at least one
    year, the discount rate is not -1 unless that timeline has a single
    year, and the assumptions carry a retirement-age hint; where one of
    these fails, the run raises. *)
Theorem run_case_returns_only_if (env : Env) (c : Config) (r : CaseResult) :
  run_case env c = inr r -> runnable env c.
Proof.
  intros H. destruct (run_case_checks env c r H) as [M DV].
  split; [exact M |]. split.
  { destruct (run_case_hint env c r H) as [h E]. rewrite E. discriminate. }
  pose proof H as INV. apply run_case_inv in INV.
  destruct INV as (s & b & d & base & le & lf & wage & avg & ddf & pdf & total
                   & Es & Eb & Ed & Ebase & INV).
  cbv zeta in INV. destruct INV as (EL & EG & ED & _).
  fold (portions_of c b d) in ED. fold (growth_of c) in EG.
  fold (discount_of c) in ED.
  exists b, d. destruct (DV b d Eb Ed) as [Sb Sd].
  split; [exact Eb | split; [exact Ed | split; [exact Sb | split; [exact Sd |]]]].
  split; [| split; [| split]].
  - destruct (assumption c life_expectancy_override_years) as [v |];
      [left; discriminate |].
    right. intros T.
    destruct (life_stage_fails env (age_at_death b d) s T) as [e F].
    rewrite F in EL. discriminate EL.
  - intros Z. rewrite (wage_growth_zero_divisor base _ 6 Z) in EG.
    discriminate EG.
  - intros Z. exact (empty_timeline_no_result env c b d Eb Ed Z r H).
  - destruct (discount_inr _ _ _ ED) as [[G | N] _]; [left; exact G |].
    right. assert (NE : portions_of c b d <> [])
      by (intros Z; exact (empty_timeline_no_result env c b d Eb Ed Z r H)).
    destruct (portions_of c b d) as [| p [| q l]]; cbn in *;
      [contradiction | reflexivity | lia].
Qed.

Lemma run_case_returns_only_if_witness :
  exists r,
    run_case env_without_table case_overridden = inr r /\
    runnable env_without_table case_overridden.
Proof.
  destruct (run_case env_without_table case_overridden) as [e | r] eqn:E.
  - vm_compute in E. discriminate E.
  - exists r. split; [reflexivity |].
    exact (run_case_returns_only_if env_without_table case_overridden r E).
Defined.

(** X16.  In a run that returns, the work-life timeline has at least one
    year; the projection, discount and present-value tables each have one
    row per year of that timeline, indexed from 0; the projections carry the
    timeline as their portions; and the wage table has seven rows. *)
Theorem tables_of_a_run (env : Env) (c : Config) (r : CaseResult) :
  run_case env c = inr r ->
  let n := List.length (worklife_timeline r) in
  (1 <= n)%nat /\
  PortionOfYear (projections_df r) = worklife_timeline r /\
  proj_YearIndex (projections_df r) = seq 0 n /\
  List.length (FullYearValue (projections_df r)) = n /\
  List.length (ActualValue (projections_df r)) = n /\
  disc_YearIndex (discount_df r) = seq 0 n /\
  List.length (DiscountFactor (discount_df r)) = n /\
  pv_YearIndex (pv_df r) = seq 0 n /\
  List.length (PresentValue (pv_df r)) = n /\
  List.length (CumulativePV (pv_df r)) = n /\
  wage_YearIndex (wage_df r) = seq 0 7 /\
  List.length (MeanWage (wage_df r)) = 7%nat /\
  List.length (YoYGrowth (wage_df r)) = 7%nat.
Proof.
  intros H. pose proof H as INV. apply run_case_inv in INV.
  destruct INV as (s & b & d & base & le & lf & wage & avg & ddf & pdf & total
                   & Es & Eb & Ed & Ebase & INV).
  cbv zeta in INV. destruct INV as (EL & EG & ED & EV & ET & R).
  fold (portions_of c b d) in *. fold (growth_of c) in *.
  assert (NE : portions_of c b d <> [])
    by (intros Z; exact (empty_timeline_no_result env c b d Eb Ed Z r H)).
  subst r. cbv zeta.
  cbn [worklife_timeline projections_df discount_df pv_df wage_df].
  destruct (projections_spec base (growth_of c) (portions_of c b d))
    as (FV & PO & YI & LF & LA & _).
  destruct (discount_inr _ _ _ ED) as [_ ->].
  cbn [disc_YearIndex DiscountFactor] in *.
  destruct (present_values_runs
              (ActualValue (fst (_compute_projections base (growth_of c)
                                   (portions_of c b d))))
              (map (fun t =>
                      1 / (1 + get_default (assumption c discount_rate_override)
                                 default_discount_rate) ^ t)
                 (seq 0 (List.length (portions_of c b d)))))
    as (pdf' & EV' & PI & LP & LC & _).
  { rewrite LA, length_map, length_seq. lia. }
  rewrite EV' in EV. injection EV as <-.
  assert (G : 1 + growth_of c <> 0).
  { intros Z. rewrite (wage_growth_zero_divisor base _ 6 Z) in EG.
    discriminate EG. }
  destruct (wage_growth_series_runs base (growth_of c) 7 G)
    as (wage' & avg' & EG' & W & WI & YY & _); [lia |].
  rewrite EG' in EG. injection EG as <- <-.
  rewrite FV, LA in *.
  repeat split; try assumption.
  - destruct (portions_of c b d); [contradiction | simpl; lia].
  - rewrite length_map, length_seq. reflexivity.
  - rewrite W, length_map, length_seq. reflexivity.
  - rewrite YY, W. reflexivity.
Qed.

Lemma tables_of_a_run_witness :
  exists r,
    run_case env_without_table case_overridden = inr r /\
    List.length (worklife_timeline r) = 3%nat /\
    List.length (CumulativePV (pv_df r)) = 3%nat.
Proof.
  destruct (run_case env_without_table case_overridden) as [e | r] eqn:E.
  - vm_compute in E. discriminate E.
  - exists r. split; [reflexivity |].
    destruct (tables_of_a_run env_without_table case_overridden r E)
      as (_ & _ & _ & _ & _ & _ & _ & _ & _ & LC & _).
    assert (L : List.length (worklife_timeline r) = 3%nat).
    { vm_compute in E. injection E as <-. reflexivity. }
    split; [exact L | rewrite LC; exact L].
Defined.

(** ** The total loss *)


(** The present values of a run in closed form. *)
Lemma run_case_present_values (env : Env) (c : Config) (r : CaseResult) :
  run_case env c = inr r ->
  exists b d base,
    dob (person c) = Some b /\ dod (person c) = Some d /\
    base_salary_usd (occupation c) = Some base /\
    worklife_timeline r = portions_of c b d /\
    PresentValue (pv_df r)
    = map (discounted_year base (growth_of c) (discount_of c)
             (worklife_timeline r))
        (seq 0 (List.length (worklife_timeline r))) /\
    total_economic_loss_usd (summary r) = Py.sum (PresentValue (pv_df r)).
Proof.
  intros H. pose proof H as INV. apply run_case_inv in INV.
  destruct INV as (s & b & d & base & le & lf & wage & avg & ddf & pdf & total
                   & Es & Eb & Ed & Ebase & INV).
  cbv zeta in INV. destruct INV as (EL & EG & ED & EV & ET & R).
  fold (portions_of c b d) in *. fold (growth_of c) in *.
  fold (discount_of c) in *.
  assert (NE : portions_of c b d <> [])
    by (intros Z; exact (empty_timeline_no_result env c b d Eb Ed Z r H)).
  exists b, d, base. subst r.
  cbn [worklife_timeline pv_df summary total_economic_loss_usd].
  destruct (projections_spec base (growth_of c) (portions_of c b d))
    as (FV & _ & _ & LF & LA & F & A).
  destruct (discount_inr _ _ _ ED) as [_ ->]. cbn [DiscountFactor] in EV.
  destruct (present_values_runs
              (ActualValue (fst (_compute_projections base (growth_of c)
                                   (portions_of c b d))))
              (map (fun t => 1 / (1 + discount_of c) ^ t)
                 (seq 0 (List.length (portions_of c b d)))))
    as (pdf' & EV' & _ & LP & _ & P & TOT).
  { rewrite LA, length_map, length_seq. lia. }
  rewrite EV' in EV. injection EV as <-.
  rewrite TOT in ET
    by (intros Z; rewrite Z in LA; destruct (portions_of c b d);
        [contradiction | discriminate]).
  injection ET as <-.
  repeat split; try assumption.
  apply nth_ext with (d := 0) (d' := 0).
  - rewrite LP, LA, length_map, length_seq. reflexivity.
  - intros t T. rewrite LP, LA in T. rewrite LA in P.
    rewrite P, A, F, !nth_map_seq by exact T. reflexivity.
Qed.

(** X17.  The total loss of a run that returns is the sum, over the years
    of the work-life timeline, of the base salary compounded at the growth
    rate, times the portion of the year, discounted at the discount rate:
    [sum_t base * (1+g)^t * portion[t] / (1+d)^t]. *)
Theorem total_loss_closed_form (env : Env) (c : Config) (r : CaseResult)
    (base : Qc) :
  run_case env c = inr r ->
  base_salary_usd (occupation c) = Some base ->
  total_economic_loss_usd (summary r)
  = Py.sum (map (discounted_year base (growth_of c) (discount_of c)
                   (worklife_timeline r))
              (seq 0 (List.length (worklife_timeline r)))).
Proof.
  intros H B.
  destruct (run_case_present_values env c r H)
    as (b & d & base' & _ & _ & B' & _ & PV & TOT).
  rewrite B in B'. injection B' as <-. rewrite TOT, PV. reflexivity.
Qed.

Lemma total_loss_closed_form_witness :
  exists r,
    run_case env_without_table case_overridden = inr r /\
    total_economic_loss_usd (summary r)
    = Py.sum (map (discounted_year (Py.of_int 86900) (Q2Qc (4 # 100))
                     (Q2Qc (5 # 100)) [1; 1; Q2Qc (1 # 2)])
                (seq 0 3)).
Proof.
  destruct (run_case env_without_table case_overridden) as [e | r] eqn:E.
  - vm_compute in E. discriminate E.
  - exists r. split; [reflexivity |].
    rewrite (total_loss_closed_form env_without_table case_overridden r
               (Py.of_int 86900) E eq_refl).
    assert (L : worklife_timeline r = [1; 1; Q2Qc (1 # 2)]).
    { vm_compute in E. injection E as <-. reflexivity. }
    rewrite L. reflexivity.
Defined.




(** X19.  Without a discount override a run reports 3.7 percent; without
    a growth override and with a base salary other than 0 it reports a wage
    growth of 2.8 percent. *)
Theorem default_rates_in_summary (env : Env) (c : Config) (r : CaseResult) :
  run_case env c = inr r ->
  (assumption c discount_rate_override = None ->
   discount_rate_pct (summary r) = Q2Qc (37 # 10)) /\
  (assumption c annual_growth_rate_override = None ->
   base_salary_usd (occupation c) <> Some 0 ->
   avg_wage_growth_pct (summary r) = Q2Qc (28 # 10)).
Proof.
  intros H. apply run_case_inv in H.
  destruct H as (s & b & d & base & le & lf & wage & avg & ddf & pdf & total
                 & Es & Eb & Ed & Ebase & INV).
  cbv zeta in INV. destruct INV as (EL & EG & ED & EV & ET & ->).
  cbn [summary discount_rate_pct avg_wage_growth_pct]. split.
  - intros ->. apply Qc_is_canon. reflexivity.
  - intros N NZ. rewrite N in EG. cbn [get_default] in EG.
    assert (B : base <> 0)
      by (intros Z; apply NZ; rewrite Ebase, Z; reflexivity).
    destruct (wage_growth_series_mean base default_growth_rate 7 B)
      as (df & E & _); [discriminate | lia |].
    rewrite E in EG. injection EG as _ <-. apply Qc_is_canon. reflexivity.
Qed.

Lemma default_rates_in_summary_witness :
  exists r,
    run_case env_without_table case_001 = inr r /\
    discount_rate_pct (summary r) = Q2Qc (37 # 10) /\
    avg_wage_growth_pct (summary r) = Q2Qc (28 # 10).
Proof.
  destruct (run_case env_without_table case_001) as [e | r] eqn:E.
  - vm_compute in E. discriminate E.
  - exists r. split; [reflexivity |].
    destruct (default_rates_in_summary env_without_table case_001 r E)
      as [D G].
    split; [apply D; reflexivity | apply G; [reflexivity | discriminate]].
Defined.

(** ** The form of the web application *)

Lemma percent_round_trip (x : Qc) : x / Py.of_int 100 * Py.of_int 100 = x.
Proof. field. discriminate. Qed.

Lemma bind_inl {A B : Type} (m : result A) (k : A -> result B) (e : exn) :
  bind m k = inl e -> m = inl e \/ exists a, m = inr a /\ k a = inl e.
Proof.
  destruct m as [e' | a]; simpl; intros H.
  - left. injection H as ->. reflexivity.
  - right. eauto.
Qed.

Lemma strptime_inl (d : date) (e : exn) :
  Calendar.strptime d = inl e ->
  e = ValueError "time data does not match format".
Proof.
  unfold Calendar.strptime.
  match goal with
  | |- context [if ?b then _ else _] => destruct b
  end; [discriminate | intros [= <-]; reflexivity].
Qed.

Lemma life_stage_error (env : Env) (age : Qc) (s : string) (ov : option Qc)
    (e : exn) :
  _compute_life_expectancy env age s ov = inl e ->
  exists m, e = FileNotFoundError m.
Proof.
  unfold _compute_life_expectancy, _load_life_table.
  destruct ov as [v |]; [discriminate |].
  destruct (table_file env) as [table |].
  - cbn [bind ret].
    destruct (rows_at table (Py.floor age)) as [| r0 t0]; [discriminate |].
    destruct (rows_at table (Py.floor age + 1)); discriminate.
  - intros [= <-]. eexists. reflexivity.
Qed.

Lemma wage_stage_error (base g : Qc) (k : nat) (e : exn) :
  _compute_wage_growth_series base g (S k) = inl e ->
  e = ZeroDivisionError /\ 1 + g = 0.
Proof.
  intros H. destruct (Qc_eq_dec (1 + g) 0) as [Z | G].
  - rewrite (wage_growth_zero_divisor base g k Z) in H. injection H as <-.
    split; [reflexivity | exact Z].
  - destruct (wage_growth_series_runs base g (S k) G) as (df & avg & E & _);
      [lia |].
    rewrite E in H. discriminate H.
Qed.

Lemma discount_stage_error (rate : Qc) (n : nat) (e : exn) :
  _compute_discount_factors rate n = inl e ->
  e = ZeroDivisionError /\ 1 + rate = 0.
Proof.
  intros H. destruct (Qc_eq_dec (1 + rate) 0) as [Z | G].
  - split; [| exact Z]. destruct n as [| [| k]].
    + rewrite discount_runs in H by (right; lia). discriminate H.
    + rewrite discount_runs in H by (right; lia). discriminate H.
    + unfold _compute_discount_factors, Py.range in H.
      rewrite (factors_of_minus_one rate k Z) in H. injection H as <-.
      reflexivity.
  - rewrite discount_runs in H by (left; exact G). discriminate H.
Qed.

Lemma present_values_error (actual factors : list Qc) (e : exn) :
  _compute_present_values actual factors = inl e -> e = IndexError.
Proof.
  intros H.
  destruct (Nat.lt_ge_cases (List.length factors) (List.length actual))
    as [L | L].
  - unfold _compute_present_values in H.
    rewrite pv_from_short in H by (simpl; lia). injection H as <-.
    reflexivity.
  - destruct (present_values_runs actual factors L) as (df & E & _).
    rewrite E in H. discriminate H.
Qed.

(** Every way a run fails. *)
Lemma run_case_errors (env : Env) (c : Config) (e : exn) :
  run_case env c = inl e ->
  (exists msg, e = ValueError msg /\ In msg (missing_required c)) \/
  e = ValueError "time data does not match format" \/
  (exists m, e = FileNotFoundError m) \/
  (e = ZeroDivisionError /\ (1 + growth_of c = 0 \/ 1 + discount_of c = 0)) \/
  e = IndexError \/
  (exists k, e = KeyError k /\ assumption c retirement_age_hint = None).
Proof.
  unfold run_case. intros H.
  repeat match type of H with
  | bind (require ?msg ?f) _ = inl _ =>
      destruct f eqn:?; cbn [require bind ret raise] in H;
      [| injection H as <-; left; exists msg; split; [reflexivity |];
         unfold missing_required;
         repeat match goal with E : _ = None |- _ => rewrite E end;
         rewrite !in_app_iff; cbn; intuition]
  end.
  right.
  apply bind_inl in H. destruct H as [H | (b & Eb & H)];
    [left; exact (strptime_inl _ _ H) |].
  apply bind_inl in H. destruct H as [H | (d' & Ed & H)];
    [left; exact (strptime_inl _ _ H) |].
  right.
  apply bind_inl in H. destruct H as [H | ([le lf] & EL & H)];
    [left; exact (life_stage_error _ _ _ _ _ H) |].
  right.
  match type of H with
  | (let '(_, _) := ?p in _) = _ => destruct p as [wle portions]
  end.
  fold (growth_of c) in H. fold (discount_of c) in H.
  apply bind_inl in H. destruct H as [H | ([wage avg] & EG & H)].
  { left. destruct (wage_stage_error _ _ _ _ H) as [-> Z].
    split; [reflexivity | left; exact Z]. }
  match type of H with
  | (let '(_, _) := ?p in _) = _ => destruct p as [pj full]
  end.
  apply bind_inl in H. destruct H as [H | (ddf & ED & H)].
  { left. destruct (discount_stage_error _ _ _ H) as [-> Z].
    split; [reflexivity | right; exact Z]. }
  right.
  apply bind_inl in H. destruct H as [H | (pdf & EV & H)];
    [left; exact (present_values_error _ _ _ H) |].
  apply bind_inl in H. destruct H as [H | (total & ET & H)].
  { left. destruct (CumulativePV pdf); [| discriminate H].
    injection H as <-. reflexivity. }
  right.
  apply bind_inl in H. destruct H as [H | (u & EM & H)]; [| discriminate H].
  unfold _create_pdf_memo in H. unfold assumption.
  destruct (assumptions c) as [a |].
  - destruct (retirement_age_hint a); [discriminate H |].
    injection H as <-. eexists. split; reflexivity.
  - injection H as <-. eexists. split; reflexivity.
Qed.

Lemma percent_positive (x : Qc) : 0 < x -> 0 <= x / Py.of_int 100.
Proof.
  intros H. unfold Qcdiv. apply mult_nonneg.
  - apply Qclt_le_weak. exact H.
  - apply Qclt_le_weak. apply inv_pos. reflexivity.
Qed.

Lemma form_rates (f : Form) :
  1 + growth_of (cfg f) <> 0 /\ 1 + discount_of (cfg f) <> 0.
Proof.
  unfold growth_of, discount_of, assumption, cfg.
  cbn [assumptions annual_growth_rate_override discount_rate_override].
  split.
  - destruct (Py.ltb 0 (in_growth_rate_override f)) eqn:E; cbn [get_default].
    + apply ltb_lt in E. apply pos_nonzero.
      apply (one_plus_pos _ (percent_positive _ E)).
    + discriminate.
  - destruct (Py.ltb 0 (in_discount_rate_override f)) eqn:E; cbn [get_default].
    + apply ltb_lt in E. apply pos_nonzero.
      apply (one_plus_pos _ (percent_positive _ E)).
    + discriminate.
Qed.

(** X20.  A run started from the form never fails on a missing key or on
    a division by zero: the configuration built names every required key
    and the retirement hint, and the rates it passes are positive or the
    defaults, so neither the missing-key [ValueError], nor [KeyError], nor
    [ZeroDivisionError] can come out of it. *)
Theorem form_run_failures (env : Env) (f : Form) (e : exn) :
  run_case env (cfg f) = inl e ->
  e <> ZeroDivisionError /\
  (forall k, e <> KeyError k) /\
  ~ missing_key_error e.
Proof.
  intros H. apply run_case_errors in H.
  destruct (form_rates f) as [G D].
  destruct H as [(msg & _ & I) | [-> | [(m & ->) | [(_ & [Z | Z]) | [-> | (k & _ & K)]]]]].
  - contradiction I.
  - split; [discriminate | split; [discriminate |]].
    intros (name & [E | E]); discriminate E.
  - split; [discriminate | split; [discriminate |]].
    intros (name & [E | E]); discriminate E.
  - contradiction.
  - contradiction.
  - split; [discriminate | split; [discriminate |]].
    intros (name & [E | E]); discriminate E.
  - discriminate K.
Qed.

Lemma form_run_failures_witness :
  run_case env_with_table (cfg form_past_retirement) = inl IndexError /\
  IndexError <> ZeroDivisionError.
Proof.
  assert (H : run_case env_with_table (cfg form_past_retirement)
              = inl IndexError) by (vm_compute; reflexivity).
  split; [exact H |].
  exact (proj1 (form_run_failures env_with_table form_past_retirement
                  IndexError H)).
Defined.

(** X21.  What is typed into the form is what a run that returns reports:
    a positive discount percentage is the discount-rate percentage of the
    summary, and 0 or less gives 3.7; positive life and work-life years are
    the years of the summary; a positive growth percentage is the reported
    wage growth when the base salary is not 0. *)
Theorem form_values_in_summary (env : Env) (f : Form) (r : CaseResult) :
  run_case env (cfg f) = inr r ->
  (0 < in_discount_rate_override f ->
   discount_rate_pct (summary r) = in_discount_rate_override f) /\
  (in_discount_rate_override f <= 0 ->
   discount_rate_pct (summary r) = Q2Qc (37 # 10)) /\
  (0 < in_life_expectancy_override f ->
   life_expectancy_years (summary r) = in_life_expectancy_override f) /\
  (0 < in_worklife_override f ->
   worklife_remaining_years (summary r) = in_worklife_override f) /\
  (0 < in_growth_rate_override f -> in_base_salary_usd f <> 0 ->
   avg_wage_growth_pct (summary r) = in_growth_rate_override f).
Proof.
  intros H. apply run_case_inv in H.
  destruct H as (s & b & d & base & le & lf & wage & avg & ddf & pdf & total
                 & Es & Eb & Ed & Ebase & INV).
  cbv zeta in INV. destruct INV as (EL & EG & ED & EV & ET & ->).
  cbn [summary discount_rate_pct life_expectancy_years
       worklife_remaining_years avg_wage_growth_pct].
  unfold assumption, cfg in *.
  cbn [assumptions occupation base_salary_usd life_expectancy_override_years
       worklife_table_override discount_rate_override
       annual_growth_rate_override] in *.
  injection Ebase as <-.
  split; [| split; [| split; [| split]]].
  - intros L. apply ltb_lt in L. rewrite L. cbn [get_default].
    apply percent_round_trip.
  - intros L. apply ltb_ge in L. rewrite L. cbn [get_default].
    apply Qc_is_canon. reflexivity.
  - intros L. apply ltb_lt in L. rewrite L in EL.
    unfold _compute_life_expectancy in EL. cbn in EL.
    injection EL as <- _. reflexivity.
  - intros L. apply ltb_lt in L. rewrite L. reflexivity.
  - intros L B. apply ltb_lt in L. rewrite L in EG. cbn [get_default] in EG.
    destruct (Qc_eq_dec (1 + in_growth_rate_override f / Py.of_int 100) 0)
      as [Z | G].
    + rewrite (wage_growth_zero_divisor _ _ 6 Z) in EG. discriminate.
    + destruct (wage_growth_series_mean (in_base_salary_usd f)
                  (in_growth_rate_override f / Py.of_int 100) 7 B G)
        as (df & E & _); [lia |].
      rewrite E in EG. injection EG as _ <-. apply percent_round_trip.
Qed.

Lemma form_values_in_summary_witness :
  exists r,
    run_case env_without_table (cfg form_overridden) = inr r /\
    discount_rate_pct (summary r) = Py.of_int 5 /\
    avg_wage_growth_pct (summary r) = Py.of_int 4.
Proof.
  destruct (run_case env_without_table (cfg form_overridden))
    as [e | r] eqn:E.
  - vm_compute in E. discriminate E.
  - exists r. split; [reflexivity |].
    destruct (form_values_in_summary env_without_table form_overridden r E)
      as (D & _ & _ & _ & G).
    split; [apply D; reflexivity | apply G; [reflexivity | discriminate]].
Defined.

(** X22.  From the form, a work-life override left at 0 (or below) with a
    retirement hint not above the age at death gives a run that returns
    nothing, whatever else is typed and whatever the disk holds. *)
Theorem form_past_retirement_no_result (env : Env) (f : Form) :
  in_worklife_override f <= 0 ->
  in_retirement_age_hint f <= age_at_death (in_dob f) (in_dod f) ->
  forall r, run_case env (cfg f) <> inr r.
Proof.
  intros W Hh. apply (empty_timeline_no_result env (cfg f) (in_dob f) (in_dod f));
    try reflexivity.
  unfold portions_of, hint_of, assumption, cfg.
  cbn [assumptions person education_level active_status retirement_age_hint
       worklife_table_override get_default].
  apply ltb_ge in W. rewrite W.
  rewrite (worklife_zero _ _ _ _ Hh). reflexivity.
Qed.

Lemma form_past_retirement_no_result_witness :
  in_worklife_override form_past_retirement <= 0 /\
  forall r, run_case env_with_table (cfg form_past_retirement) <> inr r.
Proof.
  split; [discriminate |].
  apply (form_past_retirement_no_result env_with_table form_past_retirement);
    vm_compute; discriminate.
Defined.
